(** * The TALP region registry of DLB (LB_comm/shmem_talp.c)

    A shallow embedding of the shared-memory region table and of the
    operations that work on it: attach and detach, registration, the
    counter accessors, the listing queries and the crash-cleanup callback.

    The embedding follows one process: the payload of the shared segment
    and the file-level statics of the translation unit are threaded
    through every operation as one [world].  The segment lock and the
    relaxed atomics are sequentially transparent and are not represented.

    An [int] is a [Z].  The sizes, ids and counts stay between zero and the
    capacity, so their arithmetic is exact; the one expression that can
    leave the range of [int] on table data, the difference of two pids in
    [cmp_region_list], has its wrap-around written out.  An access to the
    record array outside the mapping has no defined result in C: a read
    there yields the zero record and a write is dropped, and the
    statements say where the mapping is assumed to hold the slot. *)

From Stdlib Require Import ZArith Lia Ascii String.
From stdpp Require Import base tactics option list sorting strings.

Local Open Scope Z_scope.

(** ** C strings *)

(** A [char] buffer is a list of characters; a read past the end of the
    list yields the terminating NUL. *)
Definition NUL : ascii := Ascii.zero.

Definition is_NUL (c : ascii) : bool := Ascii.eqb c NUL.

(** The characters of a C string, up to and excluding its first NUL. *)
Fixpoint c_str (s : list ascii) : list ascii :=
  match s with
  | [] => []
  | c :: s' => if is_NUL c then [] else c :: c_str s'
  end.

Definition strlen (s : list ascii) : nat := length (c_str s).

Definition uchar (c : ascii) : Z := Z.of_nat (nat_of_ascii c).

(** [strncmp s1 s2 n]: compares at most [n] characters and stops at the
    first difference or at a NUL. *)
Fixpoint strncmp (s1 s2 : list ascii) (n : nat) : Z :=
  match n with
  | O => 0
  | S n' =>
      let c1 := hd NUL s1 in
      let c2 := hd NUL s2 in
      if negb (Ascii.eqb c1 c2) then uchar c1 - uchar c2
      else if is_NUL c1 then 0
      else strncmp (tl s1) (tl s2) n'
  end.

(** [snprintf(dst, size, "%s", src)]: at most [size - 1] characters of
    [src] and a NUL are stored at the start of [dst]; the rest of [dst]
    is left as it was. *)
Definition snprintf_s (dst : list ascii) (size : nat) (src : list ascii)
  : list ascii :=
  match size with
  | O => dst
  | S m =>
      let out := take m (c_str src) ++ [NUL] in
      out ++ drop (length out) dst
  end.

(** ** Result codes (apis/dlb_errors.h) *)

Inductive dlb_error : Type :=
  | DLB_NOUPDT
  | DLB_SUCCESS
  | DLB_ERR_INIT
  | DLB_ERR_NOSHMEM
  | DLB_ERR_NOPROC
  | DLB_ERR_NOENT
  | DLB_ERR_NOMEM.

(** Modelled from the spec: the integer behind each code; the
    enumeration is declared in apis/dlb_errors.h, outside this file.
    The codes are discrete; the failures are the
    negative ones, which is what [error < DLB_SUCCESS] tests, success is
    zero and the no-update notice, not a failure, is positive.  The
    values are those of DLB's public header. *)
Definition error_value (e : dlb_error) : Z :=
  match e with
  | DLB_NOUPDT => 2
  | DLB_SUCCESS => 0
  | DLB_ERR_INIT => -3
  | DLB_ERR_NOSHMEM => -5
  | DLB_ERR_NOPROC => -6
  | DLB_ERR_NOENT => -11
  | DLB_ERR_NOMEM => -14
  end.

Global Instance dlb_error_eq_dec : EqDecision dlb_error.
Proof. solve_decision. Defined.

(** ** Data model *)

(** [enum { NOBODY = 0 }] *)
Definition NOBODY : Z := 0.

(** The [float] field is only ever copied or zero-initialised; it is kept
    as its IEEE-754 binary32 bit pattern, all-bits-zero being [+0.0f]. *)
Definition float : Type := Z.

(** [talp_region_t]; the fields carry the prefix [tr_]. *)
Record talp_region_t : Type := {
  tr_name : list ascii;       (* char name[DLB_MONITOR_NAME_MAX] *)
  tr_mpi_time : Z;            (* atomic_int_least64_t *)
  tr_useful_time : Z;         (* atomic_int_least64_t *)
  tr_pid : Z;                 (* pid_t *)
  tr_avg_cpus : float
}.

(** [shdata_t], the payload of the segment; the fields carry the prefix
    [sd_].  [sd_talp_region] is the flexible array member: it has as many
    elements as the mapping holds. *)
Record shdata_t : Type := {
  sd_initialized : bool;
  sd_max_regions : Z;         (* capacity *)
  sd_num_regions : Z;         (* size *)
  sd_talp_region : list talp_region_t
}.

(** [talp_region_list_t], the snapshot handed to callers; prefix [rl_]. *)
Record talp_region_list_t : Type := {
  rl_pid : Z;
  rl_region_id : Z;
  rl_mpi_time : Z;
  rl_useful_time : Z;
  rl_avg_cpus : float
}.

(** The calls made to the segment primitive (LB_comm/shmem.c), in the
    order they are made, most recent first. *)
Inductive shmem_call : Type :=
  | Shmem_init (key : list ascii) (size : Z)
  | Shmem_finalize (is_empty : bool).

(** The payload together with the statics of the translation unit.  A
    pointer is represented by whether it is non-NULL; [shdata], when set,
    points at [shm]. *)
Record world : Type := {
  shm : shdata_t;
  shm_handler : bool;             (* shm_handler != NULL *)
  shdata : bool;                  (* shdata != NULL *)
  max_regions : Z;
  subprocesses_attached : Z;
  shmem_calls : list shmem_call
}.

Definition set_shm (f : shdata_t -> shdata_t) (w : world) : world :=
  {| shm := f (shm w);
     shm_handler := shm_handler w;
     shdata := shdata w;
     max_regions := max_regions w;
     subprocesses_attached := subprocesses_attached w;
     shmem_calls := shmem_calls w |}.

Definition set_talp_region (f : list talp_region_t -> list talp_region_t)
  (sd : shdata_t) : shdata_t :=
  {| sd_initialized := sd_initialized sd;
     sd_max_regions := sd_max_regions sd;
     sd_num_regions := sd_num_regions sd;
     sd_talp_region := f (sd_talp_region sd) |}.

(** A C [int]: the value an [int] expression wraps to. *)
Definition wrap_int (z : Z) : Z := (z + 2 ^ 31) mod 2 ^ 32 - 2 ^ 31.

Section Registry.

(** [DLB_MONITOR_NAME_MAX] of apis/dlb_talp.h, the size of the name
    buffer: a positive constant, whatever its value. *)
Variable DLB_MONITOR_NAME_MAX : positive.

(** [mu_get_system_size()], the number of CPUs of the node. *)
Variable mu_get_system_size : Z.

Definition name_max : nat := Pos.to_nat DLB_MONITOR_NAME_MAX.

(** [(const talp_region_t){}] *)
Definition zero_region : talp_region_t :=
  {| tr_name := replicate name_max NUL;
     tr_mpi_time := 0;
     tr_useful_time := 0;
     tr_pid := 0;
     tr_avg_cpus := 0 |}.

(** [shared_data->talp_region[region_id]] as an rvalue. *)
Definition region_at (sd : shdata_t) (region_id : Z) : talp_region_t :=
  default zero_region (sd_talp_region sd !! Z.to_nat region_id).

(** [shared_data->talp_region[region_id] = r] *)
Definition store_region (region_id : Z) (r : talp_region_t) (sd : shdata_t)
  : shdata_t :=
  set_talp_region (fun l => <[Z.to_nat region_id := r]> l) sd.

(** [talp_region->pid == pid && strncmp(talp_region->name, name,
    DLB_MONITOR_NAME_MAX-1) == 0] *)
Definition region_matches (r : talp_region_t) (pid : Z) (name : list ascii)
  : bool :=
  (tr_pid r =? pid) && (strncmp (tr_name r) name (name_max - 1) =? 0).

(** ** Init / Finalize *)

(** [shmem_talp__size()], counted in records: the segment holds the header
    and this many [talp_region_t].  It reads the static [max_regions]. *)
Definition shmem_talp__size (max_regions : Z) : Z :=
  if 0 <? max_regions then max_regions else mu_get_system_size.

(** [memset(shared_data, 0, size)]: the header and the first [size]
    records become all-bits-zero. *)
Definition memset_zero (size : Z) (sd : shdata_t) : shdata_t :=
  let l := sd_talp_region sd in
  {| sd_initialized := false;
     sd_max_regions := 0;
     sd_num_regions := 0;
     sd_talp_region :=
       replicate (Nat.min (Z.to_nat size) (length l)) zero_region
         ++ drop (Z.to_nat size) l |}.

(** The loop of [cleanup_shmem], threading the payload and [shmem_empty]. *)
Fixpoint cleanup_loop (pid : Z) (region_id : Z) (remaining : nat)
  (st : shdata_t * bool) : shdata_t * bool :=
  match remaining with
  | O => st
  | S k =>
      let talp_region := region_at (fst st) region_id in
      let st' :=
        if tr_pid talp_region =? pid then
          (store_region region_id zero_region (fst st), snd st)
        else if 0 <? tr_pid talp_region then (fst st, false)
        else st in
      cleanup_loop pid (region_id + 1) k st'
  end.

(** [cleanup_shmem(shdata_ptr, pid)], the callback given to the segment
    primitive.  Through [shmem_talp__size] it reads the static
    [max_regions], passed here as the first argument. *)
Definition cleanup_shmem (max_regions : Z) (shared_data : shdata_t)
  (pid : Z) : shdata_t :=
  let num_regions := sd_num_regions shared_data in
  let st := cleanup_loop pid 0 (Z.to_nat num_regions) (shared_data, true) in
  if snd st then memset_zero (shmem_talp__size max_regions) (fst st)
  else fst st.

(** The loop of [is_shmem_empty]. *)
Fixpoint is_shmem_empty_loop (sd : shdata_t) (region_id : Z)
  (remaining : nat) : bool :=
  match remaining with
  | O => true
  | S k =>
      if negb (tr_pid (region_at sd region_id) =? NOBODY) then false
      else is_shmem_empty_loop sd (region_id + 1) k
  end.

Definition is_shmem_empty (sd : shdata_t) : bool :=
  is_shmem_empty_loop sd 0 (Z.to_nat (sd_num_regions sd)).

(** What [shmem_init] of the segment primitive leaves in the payload
    when it returns: it is given the requested size, the cleanup
    callback and the previous contents of the segment. *)
Variable shmem_init :
  Z -> (shdata_t -> Z -> shdata_t) -> shdata_t -> shdata_t.

(** [open_shmem]: the first attachment of the process computes the
    capacity, the [int] product [mu_get_system_size() *
    shmem_size_multiplier], and maps the segment; the later ones only
    count. *)
Definition open_shmem (shmem_key : list ascii) (shmem_size_multiplier : Z)
  (w : world) : world :=
  if negb (shm_handler w) then
    let max_regions' :=
      wrap_int (mu_get_system_size * shmem_size_multiplier) in
    let size := shmem_talp__size max_regions' in
    {| shm := shmem_init size (cleanup_shmem max_regions') (shm w);
       shm_handler := true;
       shdata := true;
       max_regions := max_regions';
       subprocesses_attached := 1;
       shmem_calls := Shmem_init shmem_key size :: shmem_calls w |}
  else
    {| shm := shm w;
       shm_handler := shm_handler w;
       shdata := shdata w;
       max_regions := max_regions w;
       subprocesses_attached := subprocesses_attached w + 1;
       shmem_calls := shmem_calls w |}.

(** Modelled from the spec: [shmem_finalize] of the segment primitive
    (LB_comm/shmem.c, an external collaborator of this file).  It releases the
    local mapping and destroys the segment when the predicate it is given
    reports that no live record remains; it does not write to the
    payload.  The call is recorded with the answer of the predicate. *)
Definition shmem_finalize (is_empty_fn : shdata_t -> bool) (w : world)
  : world :=
  {| shm := shm w;
     shm_handler := shm_handler w;
     shdata := shdata w;
     max_regions := max_regions w;
     subprocesses_attached := subprocesses_attached w;
     shmem_calls := Shmem_finalize (is_empty_fn (shm w)) :: shmem_calls w |}.

Definition set_subprocesses_attached (n : Z) (w : world) : world :=
  {| shm := shm w;
     shm_handler := shm_handler w;
     shdata := shdata w;
     max_regions := max_regions w;
     subprocesses_attached := n;
     shmem_calls := shmem_calls w |}.

Definition close_shmem (w : world) : world :=
  let w := set_subprocesses_attached (subprocesses_attached w - 1) w in
  if subprocesses_attached w =? 0 then
    let w := shmem_finalize is_shmem_empty w in
    {| shm := shm w;
       shm_handler := false;
       shdata := false;
       max_regions := max_regions w;
       subprocesses_attached := subprocesses_attached w;
       shmem_calls := shmem_calls w |}
  else w.

(** The first-attacher initialisation of [shmem_talp__init]. *)
Definition first_init (max_regions : Z) (sd : shdata_t) : shdata_t :=
  {| sd_initialized := true;
     sd_max_regions := max_regions;
     sd_num_regions := 0;
     sd_talp_region := sd_talp_region sd |}.

Definition shmem_talp__init (shmem_key : list ascii)
  (shmem_size_multiplier : Z) (w : world) : dlb_error * world :=
  let w1 := open_shmem shmem_key shmem_size_multiplier w in
  let '(error, w2) :=
    if negb (sd_initialized (shm w1)) then
      (DLB_SUCCESS, set_shm (first_init (max_regions w1)) w1)
    else if negb (sd_max_regions (shm w1) =? max_regions w1) then
      (DLB_ERR_INIT, w1)
    else (DLB_SUCCESS, w1) in
  if error_value error <? error_value DLB_SUCCESS then (error, close_shmem w2)
  else (error, w2).

Definition shmem_talp_ext__init (shmem_key : list ascii)
  (shmem_size_multiplier : Z) (w : world) : dlb_error * world :=
  (DLB_SUCCESS, open_shmem shmem_key shmem_size_multiplier w).

(** The loop of [shmem_talp__finalize]. *)
Fixpoint finalize_loop (pid : Z) (region_id : Z) (remaining : nat)
  (sd : shdata_t) : shdata_t :=
  match remaining with
  | O => sd
  | S k =>
      let sd' :=
        if tr_pid (region_at sd region_id) =? pid then
          store_region region_id zero_region sd
        else sd in
      finalize_loop pid (region_id + 1) k sd'
  end.

(** The part of [shmem_talp__finalize] that runs under the lock. *)
Definition finalize_clear (pid : Z) (sd : shdata_t) : shdata_t :=
  finalize_loop pid 0 (Z.to_nat (sd_num_regions sd)) sd.

Definition shmem_talp__finalize (pid : Z) (w : world) : dlb_error * world :=
  if negb (shm_handler w) then (DLB_ERR_NOSHMEM, w)
  else (DLB_SUCCESS, close_shmem (set_shm (finalize_clear pid) w)).

Definition shmem_talp_ext__finalize (w : world) : dlb_error * world :=
  if negb (shm_handler w) then (DLB_ERR_NOSHMEM, w)
  else (DLB_SUCCESS, close_shmem w).

(** ** Register regions *)

(** The search loop of [shmem_talp__register]: the value of [region_id]
    when the loop is left, [remaining] iterations before the bound. *)
Fixpoint register_scan (sd : shdata_t) (pid : Z) (name : list ascii)
  (region_id : Z) (remaining : nat) : Z :=
  match remaining with
  | O => region_id
  | S k =>
      if region_matches (region_at sd region_id) pid name then region_id
      else register_scan sd pid name (region_id + 1) k
  end.

(** The record written to the empty spot. *)
Definition new_region (pid : Z) (avg_cpus : float) (name : list ascii)
  : talp_region_t :=
  {| tr_name := snprintf_s (replicate name_max NUL) name_max name;
     tr_mpi_time := 0;
     tr_useful_time := 0;
     tr_pid := pid;
     tr_avg_cpus := avg_cpus |}.

Definition incr_num_regions (sd : shdata_t) : shdata_t :=
  {| sd_initialized := sd_initialized sd;
     sd_max_regions := sd_max_regions sd;
     sd_num_regions := sd_num_regions sd + 1;
     sd_talp_region := sd_talp_region sd |}.

(** [shmem_talp__register]: the result code, the value stored through
    [node_shared_id] (if any) and the world afterwards. *)
Definition shmem_talp__register (pid : Z) (avg_cpus : float)
  (name : list ascii) (w : world) : dlb_error * option Z * world :=
  if negb (shm_handler w) then (DLB_ERR_NOSHMEM, None, w)
  else
    let num_regions := sd_num_regions (shm w) in
    let region_id :=
      register_scan (shm w) pid name 0 (Z.to_nat num_regions) in
    if region_id <? num_regions then
      (DLB_NOUPDT, Some region_id, w)
    else if num_regions <? max_regions w then
      (DLB_SUCCESS, Some region_id,
       set_shm (fun sd =>
         store_region region_id (new_region pid avg_cpus name)
           (incr_num_regions sd)) w)
    else
      (DLB_ERR_NOMEM, None, w).

(** ** Getters *)

(** The inner loop of [shmem_talp__get_pidlist]: the value of [i] when
    the loop is left. *)
Fixpoint pidlist_index (pid : Z) (pidlist : list Z) (i : nat) : nat :=
  match pidlist with
  | [] => i
  | p :: rest => if pid =? p then i else pidlist_index pid rest (S i)
  end.

(** The outer loop; [pidlist] holds the [*nelems] entries written so far. *)
Fixpoint pidlist_loop (sd : shdata_t) (max_len : Z) (region_id : Z)
  (remaining : nat) (pidlist : list Z) : list Z :=
  match remaining with
  | O => pidlist
  | S k =>
      if Z.of_nat (length pidlist) <? max_len then
        let pid := tr_pid (region_at sd region_id) in
        let pidlist' :=
          if negb (pid =? NOBODY) then
            if (pidlist_index pid pidlist 0 =? length pidlist)%nat
            then pidlist ++ [pid] else pidlist
          else pidlist in
        pidlist_loop sd max_len (region_id + 1) k pidlist'
      else pidlist
  end.

(** [shmem_talp__get_pidlist]: the result code and the entries written
    to the buffer, [*nelems] being their number. *)
Definition shmem_talp__get_pidlist (max_len : Z) (w : world)
  : dlb_error * option (list Z) :=
  if negb (shm_handler w) then (DLB_ERR_NOSHMEM, None)
  else
    (DLB_SUCCESS,
     Some (pidlist_loop (shm w) max_len 0
             (Z.to_nat (sd_num_regions (shm w))) [])).

Definition cmp_region_list (elem1 elem2 : talp_region_list_t) : Z :=
  wrap_int (rl_pid elem1 - rl_pid elem2).

(** The snapshot taken of a record. *)
Definition snapshot (pid : Z) (region_id : Z) (talp_region : talp_region_t)
  : talp_region_list_t :=
  {| rl_pid := pid;
     rl_region_id := region_id;
     rl_mpi_time := tr_mpi_time talp_region;
     rl_useful_time := tr_useful_time talp_region;
     rl_avg_cpus := tr_avg_cpus talp_region |}.

(** The loop of [shmem_talp__get_region]. *)
Fixpoint get_region_loop (sd : shdata_t) (pid : Z) (name : list ascii)
  (region_id : Z) (remaining : nat) : option talp_region_list_t :=
  match remaining with
  | O => None
  | S k =>
      let talp_region := region_at sd region_id in
      if region_matches talp_region pid name then
        Some (snapshot pid region_id talp_region)
      else get_region_loop sd pid name (region_id + 1) k
  end.

Definition shmem_talp__get_region (pid : Z) (name : list ascii) (w : world)
  : dlb_error * option talp_region_list_t :=
  if negb (shm_handler w) then (DLB_ERR_NOSHMEM, None)
  else
    match get_region_loop (shm w) pid name 0
            (Z.to_nat (sd_num_regions (shm w))) with
    | Some region => (DLB_SUCCESS, Some region)
    | None => (DLB_ERR_NOPROC, None)
    end.

(** The loop of [shmem_talp__get_regionlist]; [region_list] holds the
    [*nelems] entries written so far. *)
Fixpoint regionlist_loop (sd : shdata_t) (max_len : Z) (name : list ascii)
  (region_id : Z) (remaining : nat) (region_list : list talp_region_list_t)
  : list talp_region_list_t :=
  match remaining with
  | O => region_list
  | S k =>
      if Z.of_nat (length region_list) <? max_len then
        let talp_region := region_at sd region_id in
        let region_list' :=
          if negb (tr_pid talp_region =? NOBODY)
             && (strncmp (tr_name talp_region) name (name_max - 1) =? 0)
          then region_list
                 ++ [snapshot (tr_pid talp_region) region_id talp_region]
          else region_list in
        regionlist_loop sd max_len name (region_id + 1) k region_list'
      else region_list
  end.

(** [qsort] of the C library, by its contract: the elements are put in
    ascending order of the comparison function.  The order it gives to
    elements that compare equal is unspecified; insertion is one
    admissible choice. *)
Fixpoint qsort_insert {A : Type} (compar : A -> A -> Z) (x : A)
  (l : list A) : list A :=
  match l with
  | [] => [x]
  | y :: l' =>
      if compar x y <=? 0 then x :: y :: l'
      else y :: qsort_insert compar x l'
  end.

Definition qsort {A : Type} (compar : A -> A -> Z) (base : list A)
  : list A :=
  foldr (qsort_insert compar) [] base.

Definition shmem_talp__get_regionlist (max_len : Z) (name : list ascii)
  (w : world) : dlb_error * option (list talp_region_list_t) :=
  if negb (shm_handler w) then (DLB_ERR_NOSHMEM, None)
  else
    let region_list :=
      regionlist_loop (shm w) max_len name 0
        (Z.to_nat (sd_num_regions (shm w))) [] in
    (DLB_SUCCESS, Some (qsort cmp_region_list region_list)).

(** [shmem_talp__get_times]: a read, so no world is returned. *)
Definition shmem_talp__get_times (region_id : Z) (w : world)
  : dlb_error * option (Z * Z) :=
  if negb (shm_handler w) then (DLB_ERR_NOSHMEM, None)
  else if max_regions w <=? region_id then (DLB_ERR_NOMEM, None)
  else if sd_num_regions (shm w) <=? region_id then (DLB_ERR_NOENT, None)
  else if region_id <? 0 then (DLB_ERR_NOENT, None)
  else
    let talp_region := region_at (shm w) region_id in
    if tr_pid talp_region =? NOBODY then (DLB_ERR_NOENT, None)
    else
      (DLB_SUCCESS,
       Some (tr_mpi_time talp_region, tr_useful_time talp_region)).

(** ** Setters *)

Definition store_times (mpi_time useful_time : Z) (r : talp_region_t)
  : talp_region_t :=
  {| tr_name := tr_name r;
     tr_mpi_time := mpi_time;
     tr_useful_time := useful_time;
     tr_pid := tr_pid r;
     tr_avg_cpus := tr_avg_cpus r |}.

Definition store_avg_cpus (avg_cpus : float) (r : talp_region_t)
  : talp_region_t :=
  {| tr_name := tr_name r;
     tr_mpi_time := tr_mpi_time r;
     tr_useful_time := tr_useful_time r;
     tr_pid := tr_pid r;
     tr_avg_cpus := avg_cpus |}.

Definition shmem_talp__set_times (region_id : Z) (mpi_time useful_time : Z)
  (w : world) : dlb_error * world :=
  if negb (shm_handler w) then (DLB_ERR_NOSHMEM, w)
  else if max_regions w <=? region_id then (DLB_ERR_NOMEM, w)
  else if sd_num_regions (shm w) <=? region_id then (DLB_ERR_NOENT, w)
  else if region_id <? 0 then (DLB_ERR_NOENT, w)
  else
    let talp_region := region_at (shm w) region_id in
    if tr_pid talp_region =? NOBODY then (DLB_ERR_NOENT, w)
    else
      (DLB_SUCCESS,
       set_shm (store_region region_id
                  (store_times mpi_time useful_time talp_region)) w).

Definition shmem_talp__set_avg_cpus (region_id : Z) (avg_cpus : float)
  (w : world) : dlb_error * world :=
  if negb (shm_handler w) then (DLB_ERR_NOSHMEM, w)
  else if max_regions w <=? region_id then (DLB_ERR_NOMEM, w)
  else if sd_num_regions (shm w) <=? region_id then (DLB_ERR_NOENT, w)
  else if region_id <? 0 then (DLB_ERR_NOENT, w)
  else
    let talp_region := region_at (shm w) region_id in
    if tr_pid talp_region =? NOBODY then (DLB_ERR_NOENT, w)
    else
      (DLB_SUCCESS,
       set_shm (store_region region_id
                  (store_avg_cpus avg_cpus talp_region)) w).

(** ** Misc *)

Definition shmem_talp__exists (w : world) : bool := shm_handler w.

(** [shdata && shdata->initialized] *)
Definition shmem_talp__initialized (w : world) : bool :=
  shdata w && sd_initialized (shm w).

(** [enum { SHMEM_TALP_VERSION = 4 }] *)
Definition SHMEM_TALP_VERSION : Z := 4.

Definition shmem_talp__version : Z := SHMEM_TALP_VERSION.

Definition shmem_talp__get_max_regions (w : world) : Z := max_regions w.

(** [return shdata->num_regions;] with no test of [shdata]: the read
    through a NULL pointer has no defined result, rendered as [None]. *)
Definition shmem_talp__get_num_regions (w : world) : option Z :=
  if shdata w then Some (sd_num_regions (shm w)) else None.

(** ** Notions used in the statements *)

(** What the table keeps of a name: the part [strncmp] looks at. *)
Definition name_key (name : list ascii) : list ascii :=
  take (name_max - 1) (c_str name).

(** The mapping holds exactly the [shmem_talp__size()] bytes asked of
    [shmem_init]. *)
Definition mapped (w : world) : Prop :=
  Z.of_nat (length (sd_talp_region (shm w)))
  = shmem_talp__size (max_regions w).

(** The crash-cleanup callback run on the mapped payload. *)
Definition crash_cleanup (pid : Z) (w : world) : world :=
  set_shm (fun sd => cleanup_shmem (max_regions w) sd pid) w.

(** The operations that write to the table of an attached segment. *)
Inductive table_op : Type :=
  | Op_register (pid : Z) (avg_cpus : float) (name : list ascii)
  | Op_set_times (region_id : Z) (mpi_time useful_time : Z)
  | Op_set_avg_cpus (region_id : Z) (avg_cpus : float)
  | Op_finalize (pid : Z)
  | Op_cleanup (pid : Z).

Definition run_op (o : table_op) (w : world) : world :=
  match o with
  | Op_register pid avg_cpus name =>
      snd (shmem_talp__register pid avg_cpus name w)
  | Op_set_times region_id mpi_time useful_time =>
      snd (shmem_talp__set_times region_id mpi_time useful_time w)
  | Op_set_avg_cpus region_id avg_cpus =>
      snd (shmem_talp__set_avg_cpus region_id avg_cpus w)
  | Op_finalize pid => snd (shmem_talp__finalize pid w)
  | Op_cleanup pid => crash_cleanup pid w
  end.

Definition run_ops (os : list table_op) (w : world) : world :=
  foldl (fun w o => run_op o w) w os.

(** The operations that clear no record. *)
Definition keeps_records (o : table_op) : bool :=
  match o with
  | Op_finalize _ | Op_cleanup _ => false
  | _ => true
  end.

(** Slot [i] of the dense prefix is the first one that answers to
    [(pid, name)]. *)
Definition registered_at (pid : Z) (name : list ascii) (i : Z) (w : world)
  : Prop :=
  shm_handler w = true
  /\ 0 <= i < sd_num_regions (shm w)
  /\ region_matches (region_at (shm w) i) pid name = true
  /\ forall j, 0 <= j < i ->
       region_matches (region_at (shm w) j) pid name = false.

(** A registration request: the arguments of one call. *)
Definition request : Type := Z * float * list ascii.

Definition register_req (q : request) (w : world)
  : dlb_error * option Z * world :=
  shmem_talp__register q.1.1 q.1.2 q.2 w.

(** The pair a request or a record stands for, as the table tells pairs
    apart. *)
Definition req_key (q : request) : Z * list ascii := (q.1.1, name_key q.2).

Definition slot_key (r : talp_region_t) : Z * list ascii :=
  (tr_pid r, name_key (tr_name r)).

(** The world after a series of registrations, and what each returned. *)
Definition register_all (reqs : list request) (w : world) : world :=
  foldl (fun w q => snd (register_req q w)) w reqs.

Fixpoint register_results (reqs : list request) (w : world)
  : list (dlb_error * option Z) :=
  match reqs with
  | [] => []
  | q :: reqs' =>
      fst (register_req q w) :: register_results reqs' (snd (register_req q w))
  end.

(** No record of the dense prefix answers to [(pid, name)]. *)
Definition unregistered (pid : Z) (name : list ascii) (w : world) : Prop :=
  forall j, 0 <= j < sd_num_regions (shm w) ->
            region_matches (region_at (shm w) j) pid name = false.

(** An id that registration has handed out: a slot of the dense prefix,
    below the capacity. *)
Definition registered_id (region_id : Z) (w : world) : Prop :=
  0 <= region_id < sd_num_regions (shm w) /\ region_id < max_regions w.

(** The record of the slot has an owner: it has not been cleared. *)
Definition owned (region_id : Z) (w : world) : Prop :=
  tr_pid (region_at (shm w) region_id) <> NOBODY.

(** The three calls of the counter access layer. *)
Inductive counter_call : Type :=
  | Get_times (region_id : Z)
  | Set_times (region_id : Z) (mpi_time useful_time : Z)
  | Set_avg_cpus (region_id : Z) (avg_cpus : float).

Definition call_region_id (c : counter_call) : Z :=
  match c with
  | Get_times region_id => region_id
  | Set_times region_id _ _ => region_id
  | Set_avg_cpus region_id _ => region_id
  end.

(** The result code of a call and the world it leaves. *)
Definition run_counter_call (c : counter_call) (w : world)
  : dlb_error * world :=
  match c with
  | Get_times region_id => (fst (shmem_talp__get_times region_id w), w)
  | Set_times region_id mpi_time useful_time =>
      shmem_talp__set_times region_id mpi_time useful_time w
  | Set_avg_cpus region_id avg_cpus =>
      shmem_talp__set_avg_cpus region_id avg_cpus w
  end.

(** The code the precondition checks of the layer arrive at. *)
Definition counter_check (region_id : Z) (w : world) : dlb_error :=
  if negb (shm_handler w) then DLB_ERR_NOSHMEM
  else if max_regions w <=? region_id then DLB_ERR_NOMEM
  else if (region_id <? 0)
          || (sd_num_regions (shm w) <=? region_id)
          || (tr_pid (region_at (shm w) region_id) =? NOBODY)
       then DLB_ERR_NOENT
  else DLB_SUCCESS.

(** The array after the records of [pid] in the slots [lo], ...,
    [lo + n - 1] have been cleared. *)
Definition clear_owned (pid : Z) (lo : Z) (n : nat) (l : list talp_region_t)
  : list talp_region_t :=
  imap (fun k r =>
          if bool_decide (lo <= Z.of_nat k < lo + Z.of_nat n)
             && (tr_pid r =? pid)
          then zero_region else r) l.

(** Some slot of the dense prefix has a positive owner other than [pid]. *)
Definition survivor (pid : Z) (sd : shdata_t) : Prop :=
  exists j, 0 <= j < sd_num_regions sd
            /\ tr_pid (region_at sd j) <> pid
            /\ 0 < tr_pid (region_at sd j).

(** No slot of the dense prefix has a positive owner other than [pid]. *)
Definition no_survivor (pid : Z) (sd : shdata_t) : Prop :=
  forall j, 0 <= j < sd_num_regions sd ->
            tr_pid (region_at sd j) = pid \/ tr_pid (region_at sd j) <= 0.

(** [pid] owns no slot of the dense prefix. *)
Definition owns_nothing (pid : Z) (sd : shdata_t) : Prop :=
  forall j, 0 <= j < sd_num_regions sd -> tr_pid (region_at sd j) <> pid.

(** What a listing has to say of the live records named [name] among
    the slots [region_id], ..., [region_id + n - 1], in table order: for
    each of them the owner, the slot and the three counters of the
    record. *)
Fixpoint matching_regions (sd : shdata_t) (name : list ascii)
  (region_id : Z) (n : nat) : list talp_region_list_t :=
  match n with
  | O => []
  | S k =>
      let r := region_at sd region_id in
      (if negb (tr_pid r =? NOBODY)
          && (strncmp (tr_name r) name (name_max - 1) =? 0)
       then [{| rl_pid := tr_pid r;
                rl_region_id := region_id;
                rl_mpi_time := tr_mpi_time r;
                rl_useful_time := tr_useful_time r;
                rl_avg_cpus := tr_avg_cpus r |}]
       else [])
      ++ matching_regions sd name (region_id + 1) k
  end.

(** Every owner in the dense prefix is a process id: a non-negative
    [pid_t]. *)
Definition pids_valid (sd : shdata_t) : Prop :=
  forall j, 0 <= j < sd_num_regions sd ->
            0 <= tr_pid (region_at sd j) < 2 ^ 31.

(** An entry whose pid is a process id. *)
Definition valid_entry (e : talp_region_list_t) : Prop :=
  0 <= rl_pid e < 2 ^ 31.

(** The shape of the table as a process sees it: the size lies between
    zero and the capacity registration checks against. *)
Definition table_shape (w : world) : Prop :=
  0 <= sd_num_regions (shm w) <= max_regions w.

(** The owned records of the dense prefix are pairwise distinct as pairs
    of pid and name. *)
Definition unique_owned (sd : shdata_t) : Prop :=
  forall i j,
    0 <= i < sd_num_regions sd -> 0 <= j < sd_num_regions sd ->
    tr_pid (region_at sd i) <> NOBODY ->
    slot_key (region_at sd i) = slot_key (region_at sd j) ->
    i = j.

(** ** The diagnostic dump *)

(** The decimal digits of a non-negative number, most significant first;
    [fuel] bounds their number. *)
Fixpoint dec_digits (fuel : nat) (n : Z) (acc : list ascii) : list ascii :=
  match fuel with
  | O => acc
  | S f =>
      if n <? 10 then ascii_of_nat (48 + Z.to_nat n) :: acc
      else dec_digits f (n / 10) (ascii_of_nat (48 + Z.to_nat (n mod 10)) :: acc)
  end.

(** The number of digits [dec_digits] produces. *)
Fixpoint ndigits (fuel : nat) (n : Z) : nat :=
  match fuel with
  | O => O
  | S f => if n <? 10 then 1%nat else S (ndigits f (n / 10))
  end.

(** The text of the conversions [%d] and [%"PRId64"]. *)
Definition fmt_d (z : Z) : list ascii :=
  if z <? 0 then
    "-"%char :: dec_digits (S (Z.to_nat (Z.log2 (- z)))) (- z) []
  else dec_digits (S (Z.to_nat (Z.log2 z))) z [].

(** A field width given by [*]: the text is right-justified in a field of
    [width] characters, left-justified when [width] is negative. *)
Definition pad (width : Z) (s : list ascii) : list ascii :=
  if width <? 0 then s ++ replicate (Z.to_nat (- width) - length s) " "%char
  else replicate (Z.to_nat width - length s) " "%char ++ s.

(** [enum { MAX_LINE_LEN = 512 }] *)
Definition MAX_LINE_LEN : nat := 512.

(** The four column widths of [shmem_talp__print_info]. *)
Record column_widths : Type := {
  max_pid : Z;
  max_name : Z;
  max_mpi : Z;
  max_useful : Z
}.

(** The first loop of [shmem_talp__print_info], over the copy. *)
Fixpoint widths_loop (copy : shdata_t) (region_id : Z) (remaining : nat)
  (c : column_widths) : column_widths :=
  match remaining with
  | O => c
  | S k =>
      let talp_region := region_at copy region_id in
      let c' :=
        if negb (tr_pid talp_region =? NOBODY) then
          {| max_pid := Z.max (tr_pid talp_region) (max_pid c);
             max_name :=
               Z.max (Z.of_nat (strlen (tr_name talp_region))) (max_name c);
             max_mpi :=
               Z.max (Z.of_nat (length (fmt_d (tr_mpi_time talp_region))))
                 (max_mpi c);
             max_useful :=
               Z.max (Z.of_nat (length (fmt_d (tr_useful_time talp_region))))
                 (max_useful c) |}
        else c in
      widths_loop copy (region_id + 1) k c'
  end.

(** [snprintf(line, MAX_LINE_LEN, "  | %*d | %*s | %*d | %*d |", ...)]
    with the four widths and the four texts. *)
Definition info_line (w1 w2 w3 w4 : Z) (f1 f2 f3 f4 : list ascii)
  : list ascii :=
  take (MAX_LINE_LEN - 1)
    (list_ascii_of_string "  | " ++ pad w1 f1
     ++ list_ascii_of_string " | " ++ pad w2 f2
     ++ list_ascii_of_string " | " ++ pad w3 f3
     ++ list_ascii_of_string " | " ++ pad w4 f4
     ++ list_ascii_of_string " |").

(** The second loop: the lines appended to the print buffer. *)
Fixpoint lines_loop (copy : shdata_t) (max_pid_digits : Z)
  (c : column_widths) (region_id : Z) (remaining : nat)
  : list (list ascii) :=
  match remaining with
  | O => []
  | S k =>
      let talp_region := region_at copy region_id in
      (if negb (tr_pid talp_region =? NOBODY) then
         [info_line max_pid_digits (max_name c) (max_mpi c) (max_useful c)
            (fmt_d (tr_pid talp_region))
            (c_str (tr_name talp_region))
            (fmt_d (tr_mpi_time talp_region))
            (fmt_d (tr_useful_time talp_region))]
       else [])
      ++ lines_loop copy max_pid_digits c (region_id + 1) k
  end.

(** [memcpy(shdata_copy, shdata, size)]: the header and [size] records. *)
Definition memcpy_shdata (size : Z) (sd : shdata_t) : shdata_t :=
  set_talp_region (take (Z.to_nat size)) sd.

(** What [shmem_talp__print_info] formats from the copy: the header line
    and the lines of the buffer, handed to [info0] when the buffer is not
    empty.  Modelled from the spec: the print buffer is a sequence of
    lines that is empty as long as nothing was appended, and nothing is
    emitted when there are no live records. *)
Definition print_info_text (shdata_copy : shdata_t)
  : option (list ascii * list (list ascii)) :=
  let num_regions := sd_num_regions shdata_copy in
  let c :=
    widths_loop shdata_copy 0 (Z.to_nat num_regions)
      {| max_pid := 111; max_name := 4; max_mpi := 8; max_useful := 11 |} in
  let max_pid_digits := Z.of_nat (length (fmt_d (max_pid c))) in
  let buffer :=
    lines_loop shdata_copy max_pid_digits c 0 (Z.to_nat num_regions) in
  match buffer with
  | [] => None
  | _ =>
      Some (info_line max_pid_digits (max_name c) (max_mpi c) (max_useful c)
              (list_ascii_of_string "PID") (list_ascii_of_string "Name")
              (list_ascii_of_string "MPI time")
              (list_ascii_of_string "Useful time"),
            buffer)
  end.

(** [shmem_talp__print_info]: what is handed to [info0], if anything, and
    the world afterwards. *)
Definition shmem_talp__print_info (shmem_key : list ascii)
  (shmem_size_multiplier : Z) (w : world)
  : option (list ascii * list (list ascii)) * world :=
  let temporary_shmem := negb (shm_handler w) in
  let w1 :=
    if temporary_shmem
    then snd (shmem_talp_ext__init shmem_key shmem_size_multiplier w)
    else w in
  let shdata_copy :=
    memcpy_shdata (shmem_talp__size (max_regions w1)) (shm w1) in
  let w2 :=
    if temporary_shmem then snd (shmem_talp_ext__finalize w1) else w1 in
  (print_info_text shdata_copy, w2).

(** The slots with an owner among [region_id], ..., [region_id + n - 1],
    in table order. *)
Fixpoint owned_slots (sd : shdata_t) (region_id : Z) (n : nat) : list Z :=
  match n with
  | O => []
  | S k =>
      (if tr_pid (region_at sd region_id) =? NOBODY then [] else [region_id])
      ++ owned_slots sd (region_id + 1) k
  end.

(** [width] is the largest of [floor] and the values of [field] over
    [slots]. *)
Definition column_max (floor : Z) (field : Z -> Z) (slots : list Z)
  (width : Z) : Prop :=
  floor <= width
  /\ (forall j, j ∈ slots -> field j <= width)
  /\ (width = floor \/ exists j, j ∈ slots /\ width = field j).

(** * Properties *)

(** ** C strings *)

Lemma uchar_inj c1 c2 : uchar c1 = uchar c2 -> c1 = c2.
Proof.
  unfold uchar. intros H. apply Nat2Z.inj in H.
  rewrite <- (ascii_nat_embedding c1), <- (ascii_nat_embedding c2).
  by rewrite H.
Qed.

Lemma ascii_eqb_false c1 c2 : Ascii.eqb c1 c2 = false -> uchar c1 - uchar c2 <> 0.
Proof.
  intros H Hd. assert (c1 = c2) as -> by (apply uchar_inj; lia).
  by rewrite Ascii.eqb_refl in H.
Qed.

Lemma is_NUL_true c : is_NUL c = true -> c = NUL.
Proof. unfold is_NUL. apply Ascii.eqb_eq. Qed.

Lemma hd_c_str s : hd NUL (c_str s) = hd NUL s.
Proof.
  destruct s as [|c s]; simpl; [done|].
  destruct (is_NUL c) eqn:E; [|done]. by apply is_NUL_true in E as ->.
Qed.

Lemma hd_take_S {A} (d : A) n l : hd d (take (S n) l) = hd d l.
Proof. by destruct l. Qed.

(** [strncmp] reports equality exactly when the two strings agree on
    their first [n] characters. *)
Lemma strncmp_zero s1 s2 n :
  strncmp s1 s2 n = 0 <-> take n (c_str s1) = take n (c_str s2).
Proof.
  revert s1 s2. induction n as [|n IH]; intros s1 s2; [done|].
  cbn [strncmp].
  destruct (Ascii.eqb (hd NUL s1) (hd NUL s2)) eqn:E; cbn [negb].
  - apply Ascii.eqb_eq in E.
    destruct s1 as [|c1 s1], s2 as [|c2 s2]; simpl in E; subst; simpl.
    + done.
    + done.
    + done.
    + destruct (is_NUL c2); [done|]. rewrite IH. simpl.
      split; [by intros -> | by intros [=]].
  - apply ascii_eqb_false in E as Hne. split; [done|]. intros Heq. exfalso.
    assert (hd NUL s1 = hd NUL s2) as Hhd.
    { rewrite <- (hd_c_str s1), <- (hd_c_str s2).
      rewrite <- (hd_take_S NUL n (c_str s1)), <- (hd_take_S NUL n (c_str s2)).
      by rewrite Heq. }
    rewrite Hhd, Ascii.eqb_refl in E. done.
Qed.

Lemma c_str_no_NUL s : Forall (fun c => is_NUL c = false) (c_str s).
Proof.
  induction s as [|c s IH]; simpl; [constructor|].
  destruct (is_NUL c) eqn:E; [constructor | by constructor].
Qed.

Lemma c_str_app_NUL l rest :
  Forall (fun c => is_NUL c = false) l -> c_str (l ++ NUL :: rest) = l.
Proof.
  induction 1 as [|c l Hc _ IH]; simpl; [done|]. by rewrite Hc, IH.
Qed.

Lemma c_str_snprintf dst size src :
  (0 < size)%nat ->
  c_str (snprintf_s dst size src) = take (size - 1) (c_str src).
Proof.
  intros Hs. destruct size as [|m]; [lia|]. simpl.
  replace (m - 0)%nat with m by lia.
  rewrite <- app_assoc. simpl. apply c_str_app_NUL.
  apply Forall_take, c_str_no_NUL.
Qed.

(** ** The record array *)

Lemma name_max_pos : (0 < name_max)%nat.
Proof. unfold name_max. lia. Qed.

Lemma region_matches_spec r pid name :
  region_matches r pid name = true
  <-> tr_pid r = pid /\ name_key (tr_name r) = name_key name.
Proof.
  unfold region_matches, name_key.
  rewrite andb_true_iff, Z.eqb_eq, Z.eqb_eq, strncmp_zero. done.
Qed.

Lemma name_key_new_region pid avg_cpus name :
  name_key (tr_name (new_region pid avg_cpus name)) = name_key name.
Proof.
  unfold name_key. simpl.
  rewrite c_str_snprintf by apply name_max_pos.
  rewrite take_take. f_equal. lia.
Qed.

Lemma new_region_matches pid avg_cpus name :
  region_matches (new_region pid avg_cpus name) pid name = true.
Proof. apply region_matches_spec. split; [done | apply name_key_new_region]. Qed.

Lemma region_at_store_eq sd i r :
  0 <= i < Z.of_nat (length (sd_talp_region sd)) ->
  region_at (store_region i r sd) i = r.
Proof.
  intros H. unfold region_at, store_region. simpl.
  rewrite list_lookup_insert_eq by lia. done.
Qed.

Lemma region_at_store_ne sd i j r :
  0 <= i -> 0 <= j -> i <> j ->
  region_at (store_region i r sd) j = region_at sd j.
Proof.
  intros Hi Hj Hne. unfold region_at, store_region. simpl.
  rewrite list_lookup_insert_ne by lia. done.
Qed.

Lemma length_store_region sd i r :
  length (sd_talp_region (store_region i r sd)) = length (sd_talp_region sd).
Proof. unfold store_region. simpl. apply length_insert. Qed.

(** ** The search loop of registration *)

Lemma register_scan_bounds sd pid name i n :
  i <= register_scan sd pid name i n <= i + Z.of_nat n.
Proof.
  revert i. induction n as [|n IH]; intros i; simpl; [lia|].
  destruct (region_matches _ _ _); [lia|]. specialize (IH (i + 1)). lia.
Qed.

Lemma register_scan_before sd pid name i n j :
  i <= j < register_scan sd pid name i n ->
  region_matches (region_at sd j) pid name = false.
Proof.
  revert i. induction n as [|n IH]; intros i; simpl; [lia|].
  destruct (region_matches (region_at sd i) pid name) eqn:E; [lia|].
  intros H. destruct (decide (j = i)) as [->|Hne]; [done|].
  apply (IH (i + 1)). lia.
Qed.

Lemma register_scan_found sd pid name i n :
  register_scan sd pid name i n < i + Z.of_nat n ->
  region_matches (region_at sd (register_scan sd pid name i n)) pid name
  = true.
Proof.
  revert i. induction n as [|n IH]; intros i; simpl; [lia|].
  destruct (region_matches (region_at sd i) pid name) eqn:E; [done|].
  intros H. apply IH. lia.
Qed.

(** The loop stops at the first matching record. *)
Lemma register_scan_first sd pid name i n k :
  i <= k < i + Z.of_nat n ->
  region_matches (region_at sd k) pid name = true ->
  (forall j, i <= j < k -> region_matches (region_at sd j) pid name = false) ->
  register_scan sd pid name i n = k.
Proof.
  revert i. induction n as [|n IH]; intros i Hk Hm Hbefore; simpl; [lia|].
  destruct (decide (i = k)) as [->|Hne]; [by rewrite Hm|].
  rewrite Hbefore by lia. apply IH; [lia | done |].
  intros j Hj. apply Hbefore. lia.
Qed.

(** Without a match the loop runs to its bound. *)
Lemma register_scan_none sd pid name i n :
  (forall j, i <= j < i + Z.of_nat n ->
             region_matches (region_at sd j) pid name = false) ->
  register_scan sd pid name i n = i + Z.of_nat n.
Proof.
  revert i. induction n as [|n IH]; intros i H; simpl; [lia|].
  rewrite H by lia. rewrite IH; [lia|]. intros j Hj. apply H. lia.
Qed.

(** ** Registration *)

Lemma region_at_store sd i j r :
  0 <= i -> 0 <= j ->
  region_at (store_region i r sd) j
  = if decide (i = j /\ j < Z.of_nat (length (sd_talp_region sd)))
    then r else region_at sd j.
Proof.
  intros Hi Hj. case_decide as H.
  - destruct H as [-> H]. apply region_at_store_eq. lia.
  - destruct (decide (i = j)) as [->|Hne].
    + unfold region_at, store_region. simpl.
      rewrite list_insert_ge by lia. done.
    + by apply region_at_store_ne.
Qed.

Lemma register_found pid avg_cpus name w k :
  registered_at pid name k w ->
  shmem_talp__register pid avg_cpus name w = (DLB_NOUPDT, Some k, w).
Proof.
  intros (Hh & Hk & Hm & Hbefore). unfold shmem_talp__register.
  rewrite Hh. simpl.
  rewrite (register_scan_first _ _ _ 0 _ k) by (done || lia).
  by rewrite (proj2 (Z.ltb_lt _ _)) by lia.
Qed.

Lemma register_fresh pid avg_cpus name w :
  shm_handler w = true ->
  0 <= sd_num_regions (shm w) ->
  (forall j, 0 <= j < sd_num_regions (shm w) ->
             region_matches (region_at (shm w) j) pid name = false) ->
  shmem_talp__register pid avg_cpus name w
  = if sd_num_regions (shm w) <? max_regions w then
      (DLB_SUCCESS, Some (sd_num_regions (shm w)),
       set_shm (fun sd =>
         store_region (sd_num_regions (shm w))
           (new_region pid avg_cpus name) (incr_num_regions sd)) w)
    else (DLB_ERR_NOMEM, None, w).
Proof.
  intros Hh Hn Hnone. unfold shmem_talp__register. rewrite Hh. simpl.
  rewrite register_scan_none by (intros j Hj; apply Hnone; lia).
  replace (0 + Z.of_nat (Z.to_nat (sd_num_regions (shm w))))
    with (sd_num_regions (shm w)) by lia.
  by rewrite Z.ltb_irrefl.
Qed.

(** The outcomes of a registration on an attached table. *)
Lemma register_cases pid name w :
  shm_handler w = true ->
  0 <= sd_num_regions (shm w) ->
  (exists k, registered_at pid name k w)
  \/ (forall j, 0 <= j < sd_num_regions (shm w) ->
                region_matches (region_at (shm w) j) pid name = false).
Proof.
  intros Hh Hn.
  set (n := Z.to_nat (sd_num_regions (shm w))).
  pose proof (register_scan_bounds (shm w) pid name 0 n) as Hb.
  destruct (decide (register_scan (shm w) pid name 0 n < 0 + Z.of_nat n))
    as [Hlt|Hge].
  - left. exists (register_scan (shm w) pid name 0 n).
    split; [done|]. split; [lia|]. split.
    + by apply register_scan_found.
    + intros j Hj. by apply (register_scan_before _ _ _ 0 n).
  - right. intros j Hj. apply (register_scan_before _ _ _ 0 n). lia.
Qed.

Lemma registered_at_fresh pid avg_cpus name w :
  mapped w ->
  shm_handler w = true ->
  0 <= sd_num_regions (shm w) < max_regions w ->
  (forall j, 0 <= j < sd_num_regions (shm w) ->
             region_matches (region_at (shm w) j) pid name = false) ->
  registered_at pid name (sd_num_regions (shm w))
    (set_shm (fun sd =>
       store_region (sd_num_regions (shm w))
         (new_region pid avg_cpus name) (incr_num_regions sd)) w).
Proof.
  intros Hmap Hh Hn Hnone. unfold registered_at. simpl.
  assert (sd_num_regions (shm w)
          < Z.of_nat (length (sd_talp_region (shm w)))) as Hlen.
  { unfold mapped, shmem_talp__size in Hmap. rewrite Hmap.
    rewrite (proj2 (Z.ltb_lt _ _)) by lia. lia. }
  split; [done|]. split; [lia|]. split.
  - rewrite region_at_store_eq by (simpl; lia). apply new_region_matches.
  - intros j Hj. rewrite region_at_store_ne by lia. by apply Hnone.
Qed.

Lemma region_matches_store_times m u r pid name :
  region_matches (store_times m u r) pid name = region_matches r pid name.
Proof. done. Qed.

Lemma region_matches_store_avg_cpus a r pid name :
  region_matches (store_avg_cpus a r) pid name = region_matches r pid name.
Proof. done. Qed.

(** Overwriting a slot with a record of the same pid and name changes no
    answer of the search. *)
Lemma region_matches_store_same sd i r j pid name :
  0 <= i -> 0 <= j ->
  region_matches r pid name = region_matches (region_at sd i) pid name ->
  region_matches (region_at (store_region i r sd) j) pid name
  = region_matches (region_at sd j) pid name.
Proof.
  intros Hi Hj Hr. rewrite region_at_store by done.
  case_decide as H; [|done]. destruct H as [-> _]. done.
Qed.

Lemma registered_at_keeps pid name i o w :
  keeps_records o = true ->
  registered_at pid name i w -> registered_at pid name i (run_op o w).
Proof.
  intros Hk (Hh & Hi & Hm & Hbefore).
  destruct o as [pid' avg' name'|rid m u|rid a|?|?]; try done; simpl.
  - destruct (register_cases pid' name' w Hh ltac:(lia))
      as [[k Hk']|Hnone].
    + by rewrite (register_found _ avg' _ _ _ Hk').
    + rewrite register_fresh by (done || lia).
      destruct (sd_num_regions (shm w) <? max_regions w); [|done].
      unfold registered_at. simpl. split; [done|]. split; [lia|].
      split; [by rewrite region_at_store_ne by lia|].
      intros j Hj. rewrite region_at_store_ne by lia. by apply Hbefore.
  - unfold shmem_talp__set_times. rewrite Hh. simpl.
    repeat (case_match; try done). simpl.
    unfold registered_at. simpl. split; [done|]. split; [done|].
    split; [|intros j Hj];
      rewrite region_matches_store_same by (done || lia); auto.
  - unfold shmem_talp__set_avg_cpus. rewrite Hh. simpl.
    repeat (case_match; try done). simpl.
    unfold registered_at. simpl. split; [done|]. split; [done|].
    split; [|intros j Hj];
      rewrite region_matches_store_same by (done || lia); auto.
Qed.





(** ** The capacity bound *)

Lemma region_matches_key r q :
  region_matches r q.1.1 q.2 = true <-> slot_key r = req_key q.
Proof.
  rewrite region_matches_spec. unfold slot_key, req_key.
  split; [by intros [-> ->] | by intros [= -> ->]].
Qed.

Lemma register_full pid avg_cpus name w :
  shm_handler w = true ->
  max_regions w <= sd_num_regions (shm w) ->
  unregistered pid name w ->
  shmem_talp__register pid avg_cpus name w = (DLB_ERR_NOMEM, None, w).
Proof.
  intros Hh Hfull Hnone. unfold shmem_talp__register. rewrite Hh. simpl.
  rewrite register_scan_none by (intros j Hj; apply Hnone; lia).
  rewrite (proj2 (Z.ltb_ge _ _)) by lia.
  by rewrite (proj2 (Z.ltb_ge _ _)) by lia.
Qed.

(** Registering pairs that are new to the table and to each other, while
    there is room, appends them one after the other. *)
Lemma register_all_distinct reqs w ks :
  shm_handler w = true ->
  mapped w ->
  0 <= sd_num_regions (shm w) ->
  (forall j, 0 <= j < sd_num_regions (shm w) ->
             slot_key (region_at (shm w) j) ∈ ks) ->
  NoDup (map req_key reqs) ->
  (forall q, q ∈ reqs -> req_key q ∉ ks) ->
  sd_num_regions (shm w) + Z.of_nat (length reqs) <= max_regions w ->
  register_results reqs w
  = imap (fun k _ => (DLB_SUCCESS, Some (sd_num_regions (shm w) + Z.of_nat k)))
      reqs
  /\ shm_handler (register_all reqs w) = true
  /\ max_regions (register_all reqs w) = max_regions w
  /\ sd_num_regions (shm (register_all reqs w))
     = sd_num_regions (shm w) + Z.of_nat (length reqs)
  /\ (forall j, 0 <= j < sd_num_regions (shm (register_all reqs w)) ->
        slot_key (region_at (shm (register_all reqs w)) j)
        ∈ ks ++ map req_key reqs).
Proof.
  revert w ks. induction reqs as [|q reqs IH]; intros w ks Hh Hmap Hn Hks Hnd Hnew Hroom.
  { simpl. rewrite app_nil_r. repeat split; (done || lia). }
  apply NoDup_cons in Hnd as [Hq Hnd]. simpl in Hroom.
  assert (unregistered q.1.1 q.2 w) as Hnone.
  { intros j Hj. apply not_true_is_false. rewrite region_matches_key.
    intros Heq. apply (Hnew q); [left|]. rewrite <- Heq. by apply Hks. }
  assert (register_req q w
          = (DLB_SUCCESS, Some (sd_num_regions (shm w)),
             set_shm (fun sd =>
               store_region (sd_num_regions (shm w))
                 (new_region q.1.1 q.1.2 q.2) (incr_num_regions sd)) w))
    as Hreg.
  { unfold register_req. rewrite register_fresh by done.
    by rewrite (proj2 (Z.ltb_lt _ _)) by lia. }
  pose proof (registered_at_fresh q.1.1 q.1.2 q.2 w Hmap Hh ltac:(lia) Hnone)
    as (_ & _ & Hm & _).
  simpl. rewrite Hreg. simpl.
  match goal with |- context [register_all reqs ?w1] => set (w1' := w1) end.
  destruct (IH w1' (ks ++ [req_key q])) as (Hres & Hh' & Hmax & Hnum & Hkeys).
  - done.
  - unfold mapped, w1'. simpl. rewrite length_insert. apply Hmap.
  - simpl. lia.
  - intros j Hj. simpl in Hj. unfold w1'. simpl.
    destruct (decide (j = sd_num_regions (shm w))) as [->|Hne].
    + apply elem_of_app. right. apply list_elem_of_singleton.
      apply region_matches_key. exact Hm.
    + rewrite region_at_store_ne by lia. apply elem_of_app. left.
      apply Hks. lia.
  - done.
  - intros q' Hq' Hin. apply elem_of_app in Hin as [Hin|Hin].
    + apply (Hnew q'); [by right | done].
    + apply list_elem_of_singleton in Hin. apply Hq. rewrite <- Hin.
      apply list_elem_of_fmap. by exists q'.
  - simpl. lia.
  - rewrite Hres, Hh', Hmax, Hnum. simpl.
    split; [|split; [done|split; [done|split; [lia|]]]].
    + f_equal; [do 2 f_equal; lia|]. apply imap_ext. intros k x _. simpl.
      do 2 f_equal. lia.
    + intros j Hj. rewrite <- app_assoc in Hkeys. apply Hkeys.
      rewrite Hnum. simpl. lia.
Qed.

Lemma register_results_app reqs1 reqs2 w :
  register_results (reqs1 ++ reqs2) w
  = register_results reqs1 w ++ register_results reqs2 (register_all reqs1 w).
Proof.
  revert w. induction reqs1 as [|q reqs1 IH]; intros w; simpl; [done|].
  by rewrite IH.
Qed.

(** C2. Registration respects the capacity bound: on an attached table
    whose size equals the capacity, registering a pair that is not in the
    table fails with [DLB_ERR_NOMEM] and leaves the whole world as it was;
    and registering capacity + 1 pairwise distinct pairs into an empty
    table succeeds with ids 0, 1, ... for the first capacity of them and
    fails, without any change, exactly on the last. *)
Theorem register_capacity_bound pid avg_cpus name w reqs last w0 :
  (shm_handler w = true ->
   sd_num_regions (shm w) = max_regions w ->
   unregistered pid name w ->
   shmem_talp__register pid avg_cpus name w = (DLB_ERR_NOMEM, None, w))
  /\ (shm_handler w0 = true ->
      mapped w0 ->
      sd_num_regions (shm w0) = 0 ->
      Z.of_nat (length reqs) = max_regions w0 ->
      NoDup (map req_key (reqs ++ [last])) ->
      register_results (reqs ++ [last]) w0
      = imap (fun k _ => (DLB_SUCCESS, Some (Z.of_nat k))) reqs
          ++ [(DLB_ERR_NOMEM, None)]
      /\ register_all (reqs ++ [last]) w0 = register_all reqs w0).
Proof.
  split.
  - intros Hh Hfull Hnone. apply register_full; (done || lia).
  - intros Hh Hmap Hempty Hlen Hnd.
    rewrite map_app in Hnd. apply NoDup_app in Hnd as (Hnd & Hdisj & _).
    destruct (register_all_distinct reqs w0 [] Hh Hmap) as
      (Hres & Hh' & Hmax & Hnum & Hkeys);
      [lia | intros j Hj; lia | done | intros q _; apply not_elem_of_nil | lia |].
    assert (register_req last (register_all reqs w0)
            = (DLB_ERR_NOMEM, None, register_all reqs w0)) as Hlast.
    { apply register_full; [done | lia |].
      intros j Hj. apply not_true_is_false.
      rewrite (region_matches_key _ last). intros Heq.
      apply (Hdisj (req_key last)); [|by left].
      rewrite <- Heq. by apply Hkeys. }
    unfold register_all at 1. rewrite foldl_app. simpl.
    fold (register_all reqs w0). rewrite Hlast. split; [|done].
    rewrite register_results_app, Hres. simpl. rewrite Hlast. simpl.
    f_equal. apply imap_ext. intros k x _. simpl. rewrite Hempty.
    do 2 f_equal.
Qed.

(** ** The counter access layer *)

Lemma owned_in_range region_id w :
  0 <= region_id -> owned region_id w ->
  region_id < Z.of_nat (length (sd_talp_region (shm w))).
Proof.
  intros Hi Ho. unfold owned, region_at in Ho.
  destruct (sd_talp_region (shm w) !! Z.to_nat region_id) eqn:E; [|done].
  apply lookup_lt_Some in E. lia.
Qed.


(** C4, as the code has it.  Every failed precondition of [get_times],
    [set_times] and [set_avg_cpus] is reported and leaves the world as it
    was, and the checks are made in this order: no segment attached gives
    [DLB_ERR_NOSHMEM]; an id at or above the capacity gives
    [DLB_ERR_NOMEM]; a negative id, an id at or above the size and a slot
    without owner all give the one code [DLB_ERR_NOENT].  The three codes
    differ from each other and from [DLB_SUCCESS]. *)
Theorem counter_access_failures (c : counter_call) (w : world) :
  fst (run_counter_call c w) = counter_check (call_region_id c) w
  /\ (snd (run_counter_call c w) = w
      \/ fst (run_counter_call c w) = DLB_SUCCESS)
  /\ DLB_ERR_NOSHMEM <> DLB_ERR_NOMEM
  /\ DLB_ERR_NOSHMEM <> DLB_ERR_NOENT
  /\ DLB_ERR_NOMEM <> DLB_ERR_NOENT.
Proof.
  split; [|split; [|done]].
  - destruct c as [rid|rid m u|rid a]; simpl;
      unfold shmem_talp__get_times, shmem_talp__set_times,
        shmem_talp__set_avg_cpus, counter_check.
    all: destruct (shm_handler w); simpl; [|done].
    all: destruct (max_regions w <=? rid); [done|].
    all: destruct (sd_num_regions (shm w) <=? rid);
           [by rewrite orb_true_r|].
    all: destruct (rid <? 0); [done|]; simpl.
    all: by destruct (tr_pid (region_at (shm w) rid) =? NOBODY).
  - destruct c as [rid|rid m u|rid a]; simpl; [by left| |];
      unfold shmem_talp__set_times, shmem_talp__set_avg_cpus;
      repeat (case_match; simpl; auto).
Qed.

(** ** Clearing the records of a pid *)

Lemma finalize_loop_header pid i n sd :
  sd_initialized (finalize_loop pid i n sd) = sd_initialized sd
  /\ sd_max_regions (finalize_loop pid i n sd) = sd_max_regions sd
  /\ sd_num_regions (finalize_loop pid i n sd) = sd_num_regions sd.
Proof.
  revert i sd. induction n as [|n IH]; intros i sd; simpl; [done|].
  destruct (IH (i + 1)
              (if tr_pid (region_at sd i) =? pid
               then store_region i zero_region sd else sd))
    as (-> & -> & ->).
  by destruct (tr_pid (region_at sd i) =? pid).
Qed.

Lemma finalize_loop_regions pid i n sd :
  0 <= i ->
  sd_talp_region (finalize_loop pid i n sd)
  = clear_owned pid i n (sd_talp_region sd).
Proof.
  revert i sd. induction n as [|n IH]; intros i sd Hi; simpl.
  - apply list_eq. intros k. unfold clear_owned.
    rewrite list_lookup_imap.
    destruct (sd_talp_region sd !! k) as [r|]; simpl; [|done].
    rewrite bool_decide_eq_false_2 by lia. done.
  - rewrite IH by lia. apply list_eq. intros k. unfold clear_owned.
    rewrite !list_lookup_imap. unfold region_at, store_region.
    destruct (decide (k = Z.to_nat i)) as [->|Hne].
    + destruct (sd_talp_region sd !! Z.to_nat i) as [r|] eqn:E; simpl.
      * rewrite (bool_decide_eq_true_2 (i <= _ < i + _)) by lia. simpl.
        destruct (tr_pid r =? pid) eqn:Hp; simpl.
        -- rewrite list_lookup_insert_eq by (by eapply lookup_lt_Some).
           simpl. rewrite bool_decide_eq_false_2 by lia. done.
        -- rewrite E. simpl. rewrite Hp, andb_false_r. done.
      * assert (forall c : bool,
                  sd_talp_region
                    (if c then set_talp_region
                                 (fun l => <[Z.to_nat i:=zero_region]> l) sd
                     else sd) !! Z.to_nat i = None) as ->; [|done].
        intros []; simpl; [|done].
        rewrite list_insert_ge by (by apply lookup_ge_None). done.
    + assert (sd_talp_region
                (if tr_pid (default zero_region
                              (sd_talp_region sd !! Z.to_nat i)) =? pid
                 then set_talp_region
                        (fun l => <[Z.to_nat i:=zero_region]> l) sd
                 else sd) !! k
              = sd_talp_region sd !! k) as ->.
      { case_match; [|done]. simpl. by rewrite list_lookup_insert_ne. }
      destruct (sd_talp_region sd !! k) as [r|]; simpl; [|done].
      rewrite (bool_decide_ext (i + 1 <= Z.of_nat k < i + 1 + Z.of_nat n)
                 (i <= Z.of_nat k < i + Z.of_nat (S n))) by lia.
      done.
Qed.

Lemma cleanup_loop_fst pid i n sd b :
  fst (cleanup_loop pid i n (sd, b)) = finalize_loop pid i n sd.
Proof.
  revert i sd b. induction n as [|n IH]; intros i sd b; simpl; [done|].
  destruct (tr_pid (region_at sd i) =? pid); simpl; [apply IH|].
  destruct (0 <? tr_pid (region_at sd i)); simpl; apply IH.
Qed.

Lemma region_at_clear_owned pid lo n sd sd' j :
  0 <= j ->
  sd_talp_region sd' = clear_owned pid lo n (sd_talp_region sd) ->
  region_at sd' j
  = if bool_decide (lo <= j < lo + Z.of_nat n)
       && (tr_pid (region_at sd j) =? pid)
    then zero_region else region_at sd j.
Proof.
  intros Hj Heq. unfold region_at. rewrite Heq. unfold clear_owned.
  rewrite list_lookup_imap.
  destruct (sd_talp_region sd !! Z.to_nat j) as [r|]; simpl.
  - rewrite (bool_decide_ext (lo <= Z.of_nat (Z.to_nat j) < lo + Z.of_nat n)
               (lo <= j < lo + Z.of_nat n)) by lia.
    done.
  - by case_match.
Qed.

(** The flag of [cleanup_shmem] stays set exactly when no slot visited
    has a positive owner other than [pid]. *)
Lemma cleanup_loop_snd_true pid i n sd :
  0 <= i ->
  snd (cleanup_loop pid i n (sd, true)) = true
  <-> (forall j, i <= j < i + Z.of_nat n ->
         tr_pid (region_at sd j) = pid \/ tr_pid (region_at sd j) <= 0).
Proof.
  assert (forall n i sd, snd (cleanup_loop pid i n (sd, false)) = false) as Hf.
  { clear. induction n as [|n IH]; intros i sd; simpl; [done|].
    repeat case_match; simpl; apply IH. }
  assert (forall n i sd sd0 b, 0 <= i ->
            (forall j, i <= j -> region_at sd j = region_at sd0 j) ->
            snd (cleanup_loop pid i n (sd, b)) = true
            <-> b = true /\
                (forall j, i <= j < i + Z.of_nat n ->
                   tr_pid (region_at sd0 j) = pid
                   \/ tr_pid (region_at sd0 j) <= 0)) as Hgen.
  { clear n i sd. induction n as [|n IH]; intros i sd sd0 b Hi Hsame; simpl.
    - split; [intros ->; split; [done|intros; lia] | by intros [-> _]].
    - rewrite (Hsame i) by lia.
      destruct (tr_pid (region_at sd0 i) =? pid) eqn:Hp; simpl.
      + apply Z.eqb_eq in Hp.
        rewrite (IH (i + 1) _ sd0 b) by
          (lia || (intros j Hj; rewrite region_at_store_ne by lia;
                   apply Hsame; lia)).
        split; intros [Hb H]; (split; [done|]); intros j Hj.
        * destruct (decide (j = i)) as [->|]; [by left | apply H; lia].
        * apply H. lia.
      + apply Z.eqb_neq in Hp.
        destruct (0 <? tr_pid (region_at sd0 i)) eqn:Hpos; simpl.
        * apply Z.ltb_lt in Hpos. rewrite Hf. split; [done|].
          intros [_ H]. destruct (H i ltac:(lia)); lia.
        * apply Z.ltb_ge in Hpos.
          rewrite (IH (i + 1) sd sd0 b) by
            (lia || (intros j Hj; apply Hsame; lia)).
          split; intros [Hb H]; (split; [done|]); intros j Hj.
          -- destruct (decide (j = i)) as [->|]; [by right | apply H; lia].
          -- apply H. lia. }
  intros Hi. rewrite (Hgen n i sd sd true Hi) by done.
  split; [by intros [_ H] | by intros H].
Qed.

Lemma region_at_memset_zero size sd j :
  0 <= j ->
  region_at (memset_zero size sd) j
  = if bool_decide (j < size) then zero_region else region_at sd j.
Proof.
  intros Hj. unfold region_at, memset_zero. simpl.
  set (l := sd_talp_region sd).
  case_bool_decide as Hlt.
  - destruct (decide (Z.to_nat j < length l)%nat) as [Hin|Hout].
    + rewrite lookup_app_l by (rewrite length_replicate; lia).
      rewrite lookup_replicate_2 by lia. done.
    + rewrite lookup_ge_None_2; [done|].
      rewrite length_app, length_replicate, length_drop. lia.
  - destruct (decide (Z.to_nat size <= length l)%nat) as [Hle|Hgt].
    + rewrite lookup_app_r by (rewrite length_replicate; lia).
      rewrite length_replicate, lookup_drop. do 2 f_equal. lia.
    + rewrite !lookup_ge_None_2; [done|lia|].
      rewrite length_app, length_replicate, length_drop. lia.
Qed.

Lemma memset_zero_whole size sd :
  Z.of_nat (length (sd_talp_region sd)) <= size ->
  sd_talp_region (memset_zero size sd)
  = replicate (length (sd_talp_region sd)) zero_region.
Proof.
  intros H. unfold memset_zero. simpl.
  rewrite drop_ge by lia. rewrite app_nil_r. f_equal. lia.
Qed.

Lemma length_clear_owned pid lo n l : length (clear_owned pid lo n l) = length l.
Proof. unfold clear_owned. apply length_imap. Qed.

Lemma clear_owned_nothing pid n sd :
  (forall j, 0 <= j < Z.of_nat n -> tr_pid (region_at sd j) <> pid) ->
  clear_owned pid 0 n (sd_talp_region sd) = sd_talp_region sd.
Proof.
  intros H. apply list_eq. intros k. unfold clear_owned.
  rewrite list_lookup_imap.
  destruct (sd_talp_region sd !! k) as [r|] eqn:E; simpl; [|done].
  case_bool_decide as Hk; simpl; [|done].
  specialize (H (Z.of_nat k) ltac:(lia)). unfold region_at in H.
  rewrite Nat2Z.id, E in H. simpl in H.
  by rewrite (proj2 (Z.eqb_neq _ _)).
Qed.

Lemma survivor_or_not pid sd : survivor pid sd \/ no_survivor pid sd.
Proof.
  destruct (snd (cleanup_loop pid 0 (Z.to_nat (sd_num_regions sd)) (sd, true)))
    eqn:E.
  - right. intros j Hj.
    apply (proj1 (cleanup_loop_snd_true pid 0 _ sd ltac:(lia)) E). lia.
  - left.
    assert (exists j, (j < Z.to_nat (sd_num_regions sd))%nat
                      /\ tr_pid (region_at sd (Z.of_nat j)) <> pid
                      /\ 0 < tr_pid (region_at sd (Z.of_nat j)))
      as (j & Hj & Hne & Hpos).
    { apply not_true_iff_false in E.
      rewrite cleanup_loop_snd_true in E by lia.
      induction (Z.to_nat (sd_num_regions sd)) as [|n IH].
      - exfalso. apply E. intros j Hj. lia.
      - destruct (decide (tr_pid (region_at sd (Z.of_nat n)) = pid
                          \/ tr_pid (region_at sd (Z.of_nat n)) <= 0))
          as [Hn|Hn].
        + destruct IH as (j & Hj & Hj').
          * intros Hall. apply E. intros j Hj.
            destruct (decide (j = Z.of_nat n)) as [->|]; [done|].
            apply Hall. lia.
          * exists j. split; [lia|done].
        + exists n. split; [lia|]. lia. }
    exists (Z.of_nat j). split; [lia|done].
Qed.

Lemma survivor_not pid sd : survivor pid sd -> no_survivor pid sd -> False.
Proof. intros (j & Hj & Hne & Hpos) H. destruct (H j Hj); lia. Qed.

(** What [cleanup_shmem] returns, by whether a positive owner remains. *)
Lemma cleanup_shmem_survivor maxr sd pid :
  survivor pid sd ->
  cleanup_shmem maxr sd pid = finalize_clear pid sd.
Proof.
  intros Hs. unfold cleanup_shmem, finalize_clear.
  destruct (snd (cleanup_loop pid 0 (Z.to_nat (sd_num_regions sd)) (sd, true)))
    eqn:E; [|apply cleanup_loop_fst].
  exfalso. apply (survivor_not pid sd Hs). intros j Hj.
  apply (proj1 (cleanup_loop_snd_true pid 0 _ sd ltac:(lia)) E). lia.
Qed.

Lemma cleanup_shmem_wipe maxr sd pid :
  no_survivor pid sd ->
  cleanup_shmem maxr sd pid
  = memset_zero (shmem_talp__size maxr) (finalize_clear pid sd).
Proof.
  intros Hs. unfold cleanup_shmem, finalize_clear.
  rewrite (proj2 (cleanup_loop_snd_true pid 0 _ sd ltac:(lia)))
    by (intros j Hj; apply Hs; lia).
  by rewrite cleanup_loop_fst.
Qed.

Lemma finalize_clear_header pid sd :
  sd_initialized (finalize_clear pid sd) = sd_initialized sd
  /\ sd_max_regions (finalize_clear pid sd) = sd_max_regions sd
  /\ sd_num_regions (finalize_clear pid sd) = sd_num_regions sd.
Proof. apply finalize_loop_header. Qed.

Lemma finalize_clear_regions pid sd :
  sd_talp_region (finalize_clear pid sd)
  = clear_owned pid 0 (Z.to_nat (sd_num_regions sd)) (sd_talp_region sd).
Proof. by apply finalize_loop_regions. Qed.

Lemma region_at_finalize_clear pid sd j :
  0 <= j ->
  region_at (finalize_clear pid sd) j
  = if bool_decide (j < sd_num_regions sd) && (tr_pid (region_at sd j) =? pid)
    then zero_region else region_at sd j.
Proof.
  intros Hj.
  rewrite (region_at_clear_owned pid 0 (Z.to_nat (sd_num_regions sd)) sd)
    by (done || apply finalize_clear_regions).
  by rewrite (bool_decide_ext (0 <= j < 0 + Z.of_nat (Z.to_nat (sd_num_regions sd)))
                (j < sd_num_regions sd)) by lia.
Qed.

Lemma finalize_clear_nothing pid sd :
  owns_nothing pid sd -> finalize_clear pid sd = sd.
Proof.
  intros H.
  pose proof (finalize_clear_header pid sd) as (H1 & H2 & H3).
  pose proof (finalize_clear_regions pid sd) as H4.
  rewrite clear_owned_nothing in H4 by (intros j Hj; apply H; lia).
  destruct (finalize_clear pid sd), sd. simpl in *. by subst.
Qed.

Lemma is_shmem_empty_loop_true sd i n :
  (forall j, i <= j < i + Z.of_nat n -> tr_pid (region_at sd j) = NOBODY) ->
  is_shmem_empty_loop sd i n = true.
Proof.
  revert i. induction n as [|n IH]; intros i H; simpl; [done|].
  rewrite (H i) by lia. simpl. apply IH. intros j Hj. apply H. lia.
Qed.

Lemma shm_close_shmem w : shm (close_shmem w) = shm w.
Proof. unfold close_shmem. by case_match. Qed.

Lemma pidlist_of_empty max_len w :
  shm_handler w = true ->
  sd_num_regions (shm w) = 0 ->
  shmem_talp__get_pidlist max_len w = (DLB_SUCCESS, Some []).
Proof.
  intros Hh Hn. unfold shmem_talp__get_pidlist. by rewrite Hh, Hn.
Qed.

(** C5. Crash cleanup for a dead pid zeroes every record that pid owns.
    If some slot keeps a positive owner, nothing else changes: the
    header and the records of other owners stay as they were, and for a
    pid that owns no record the whole world does.  If no slot keeps a
    positive owner, the header is reset ([initialized], capacity and
    size are zero), the whole mapped array is zero, the list of pids is
    empty and the segment reports not-initialized.  One of the two cases
    always applies. *)
Theorem crash_cleanup_spec pid w :
  (forall j, 0 <= j < sd_num_regions (shm w) ->
     tr_pid (region_at (shm w) j) = pid ->
     region_at (shm (crash_cleanup pid w)) j = zero_region)
  /\ (survivor pid (shm w) ->
      sd_initialized (shm (crash_cleanup pid w)) = sd_initialized (shm w)
      /\ sd_max_regions (shm (crash_cleanup pid w)) = sd_max_regions (shm w)
      /\ sd_num_regions (shm (crash_cleanup pid w)) = sd_num_regions (shm w)
      /\ (forall j, 0 <= j -> tr_pid (region_at (shm w) j) <> pid ->
            region_at (shm (crash_cleanup pid w)) j = region_at (shm w) j)
      /\ (owns_nothing pid (shm w) -> crash_cleanup pid w = w))
  /\ (no_survivor pid (shm w) ->
      sd_initialized (shm (crash_cleanup pid w)) = false
      /\ sd_max_regions (shm (crash_cleanup pid w)) = 0
      /\ sd_num_regions (shm (crash_cleanup pid w)) = 0
      /\ (mapped w ->
          sd_talp_region (shm (crash_cleanup pid w))
          = replicate (length (sd_talp_region (shm w))) zero_region)
      /\ shmem_talp__initialized (crash_cleanup pid w) = false
      /\ (shm_handler w = true ->
          forall max_len,
            shmem_talp__get_pidlist max_len (crash_cleanup pid w)
            = (DLB_SUCCESS, Some [])))
  /\ (survivor pid (shm w) \/ no_survivor pid (shm w)).
Proof.
  split; [|split; [|split; [|apply survivor_or_not]]].
  - intros j Hj Hp. unfold crash_cleanup. simpl.
    destruct (survivor_or_not pid (shm w)) as [Hs|Hs].
    + rewrite cleanup_shmem_survivor, region_at_finalize_clear by (done || lia).
      rewrite bool_decide_eq_true_2 by lia.
      by rewrite (proj2 (Z.eqb_eq _ _)).
    + rewrite cleanup_shmem_wipe, region_at_memset_zero by (done || lia).
      case_bool_decide; [done|].
      rewrite region_at_finalize_clear by lia.
      rewrite bool_decide_eq_true_2 by lia.
      by rewrite (proj2 (Z.eqb_eq _ _)).
  - intros Hs. unfold crash_cleanup. simpl.
    rewrite cleanup_shmem_survivor by done.
    pose proof (finalize_clear_header pid (shm w)) as (-> & -> & ->).
    repeat split.
    + intros j Hj Hp. rewrite region_at_finalize_clear by done.
      by rewrite (proj2 (Z.eqb_neq _ _)), andb_false_r.
    + intros Hnone. unfold set_shm.
      rewrite cleanup_shmem_survivor, finalize_clear_nothing by done.
      by destruct w.
  - intros Hs.
    assert (shm (crash_cleanup pid w)
            = memset_zero (shmem_talp__size (max_regions w))
                (finalize_clear pid (shm w))) as Heq.
    { unfold crash_cleanup. simpl. by apply cleanup_shmem_wipe. }
    rewrite Heq. repeat split.
    + intros Hmap. rewrite memset_zero_whole.
      * by rewrite finalize_clear_regions, length_clear_owned.
      * rewrite finalize_clear_regions, length_clear_owned.
        unfold mapped in Hmap. lia.
    + unfold shmem_talp__initialized. rewrite Heq. simpl. apply andb_false_r.
    + intros Hh max_len. apply pidlist_of_empty; [done|]. by rewrite Heq.
Qed.

(** C6, as the code has it.  Explicit [finalize(pid)] on an attached
    segment succeeds and only zeroes the records [pid] owns: the
    [initialized] flag, the capacity and the size stay as they were.  When
    every slot was owned by [pid] or by nobody, [is_shmem_empty] holds
    afterwards, and it is what the last local detach hands to the
    segment's destroy call.  The wipe of the whole payload belongs to
    crash cleanup alone: there the header is reset as soon as no slot
    keeps a positive owner. *)
Theorem finalize_clears_only pid w :
  shm_handler w = true ->
  fst (shmem_talp__finalize pid w) = DLB_SUCCESS
  /\ sd_initialized (shm (snd (shmem_talp__finalize pid w)))
     = sd_initialized (shm w)
  /\ sd_max_regions (shm (snd (shmem_talp__finalize pid w)))
     = sd_max_regions (shm w)
  /\ sd_num_regions (shm (snd (shmem_talp__finalize pid w)))
     = sd_num_regions (shm w)
  /\ (forall j, 0 <= j ->
        region_at (shm (snd (shmem_talp__finalize pid w))) j
        = if bool_decide (j < sd_num_regions (shm w))
             && (tr_pid (region_at (shm w) j) =? pid)
          then zero_region else region_at (shm w) j)
  /\ ((forall j, 0 <= j < sd_num_regions (shm w) ->
         tr_pid (region_at (shm w) j) = pid
         \/ tr_pid (region_at (shm w) j) = NOBODY) ->
      is_shmem_empty (shm (snd (shmem_talp__finalize pid w))) = true)
  /\ (subprocesses_attached w = 1 ->
      shmem_calls (snd (shmem_talp__finalize pid w))
      = Shmem_finalize (is_shmem_empty (shm (snd (shmem_talp__finalize pid w))))
          :: shmem_calls w)
  /\ (no_survivor pid (shm w) ->
      sd_initialized (shm (crash_cleanup pid w)) = false
      /\ sd_max_regions (shm (crash_cleanup pid w)) = 0
      /\ sd_num_regions (shm (crash_cleanup pid w)) = 0).
Proof.
  intros Hh. unfold shmem_talp__finalize. rewrite Hh. simpl.
  rewrite shm_close_shmem. simpl.
  pose proof (finalize_clear_header pid (shm w)) as (-> & -> & ->).
  repeat split.
  - intros j Hj. by apply region_at_finalize_clear.
  - intros Hall. unfold is_shmem_empty.
    pose proof (finalize_clear_header pid (shm w)) as (_ & _ & ->).
    apply is_shmem_empty_loop_true. intros j Hj.
    rewrite region_at_finalize_clear by lia.
    rewrite bool_decide_eq_true_2 by lia.
    destruct (tr_pid (region_at (shm w) j) =? pid) eqn:E; simpl; [done|].
    apply Z.eqb_neq in E. destruct (Hall j ltac:(lia)); [done|done].
  - intros Hc. unfold close_shmem. simpl. rewrite Hc. done.
  - unfold crash_cleanup. simpl. by rewrite cleanup_shmem_wipe.
  - unfold crash_cleanup. simpl. by rewrite cleanup_shmem_wipe.
  - unfold crash_cleanup. simpl. by rewrite cleanup_shmem_wipe.
Qed.

(** ** The pid-sorted listing *)

Lemma wrap_int_small z : - 2 ^ 31 <= z < 2 ^ 31 -> wrap_int z = z.
Proof. intros H. unfold wrap_int. rewrite Z.mod_small; lia. Qed.

Lemma cmp_region_list_le x y :
  0 <= rl_pid x < 2 ^ 31 -> 0 <= rl_pid y < 2 ^ 31 ->
  (cmp_region_list x y <=? 0) = (rl_pid x <=? rl_pid y).
Proof.
  intros Hx Hy. unfold cmp_region_list. rewrite wrap_int_small by lia.
  destruct (rl_pid x <=? rl_pid y) eqn:E.
  - apply Z.leb_le in E. apply Z.leb_le. lia.
  - apply Z.leb_gt in E. apply Z.leb_gt. lia.
Qed.

Lemma qsort_insert_perm {A} (compar : A -> A -> Z) x l :
  qsort_insert compar x l ≡ₚ x :: l.
Proof.
  induction l as [|y l IH]; simpl; [done|].
  destruct (compar x y <=? 0); [done|]. rewrite IH. apply Permutation_swap.
Qed.

Lemma qsort_perm {A} (compar : A -> A -> Z) l : qsort compar l ≡ₚ l.
Proof.
  induction l as [|x l IH]; simpl; [done|].
  rewrite qsort_insert_perm. by rewrite IH.
Qed.

Lemma qsort_insert_sorted x l :
  valid_entry x -> Forall valid_entry l ->
  Sorted Z.le (map rl_pid l) ->
  Sorted Z.le (map rl_pid (qsort_insert cmp_region_list x l)).
Proof.
  intros Hx Hl Hs. induction l as [|y l IH]; simpl.
  - repeat constructor.
  - apply Forall_cons in Hl as [Hy Hl]. simpl in Hs.
    apply Sorted_inv in Hs as [Hs Hhd].
    rewrite cmp_region_list_le by done.
    destruct (rl_pid x <=? rl_pid y) eqn:E; simpl.
    + apply Z.leb_le in E. repeat constructor; done.
    + apply Z.leb_gt in E. constructor; [by apply IH|].
      destruct l as [|z l]; simpl.
      * constructor. lia.
      * apply Forall_cons in Hl as [Hz Hl].
        rewrite cmp_region_list_le by done.
        destruct (rl_pid x <=? rl_pid z); simpl; constructor; [lia|].
        by apply HdRel_inv in Hhd.
Qed.

Lemma qsort_sorted l :
  Forall valid_entry l -> Sorted Z.le (map rl_pid (qsort cmp_region_list l)).
Proof.
  induction l as [|x l IH]; intros Hl; simpl; [constructor|].
  apply Forall_cons in Hl as [Hx Hl].
  apply qsort_insert_sorted; [done| |by apply IH].
  by rewrite qsort_perm.
Qed.

Lemma regionlist_loop_spec sd max_len name i n acc :
  regionlist_loop sd max_len name i n acc
  = acc ++ take (Z.to_nat max_len - length acc) (matching_regions sd name i n).
Proof.
  revert i acc. induction n as [|n IH]; intros i acc; simpl.
  - by rewrite take_nil, app_nil_r.
  - destruct (Z.of_nat (length acc) <? max_len) eqn:E.
    + apply Z.ltb_lt in E. rewrite IH.
      destruct (negb (tr_pid (region_at sd i) =? NOBODY)
                && (strncmp (tr_name (region_at sd i)) name (name_max - 1)
                    =? 0)); simpl; [|done].
      rewrite length_app. simpl. rewrite <- app_assoc. simpl.
      replace (Z.to_nat max_len - length acc)%nat
        with (S (Z.to_nat max_len - (length acc + 1)))%nat by lia.
      done.
    + apply Z.ltb_ge in E.
      replace (Z.to_nat max_len - length acc)%nat with 0%nat by lia.
      by rewrite app_nil_r.
Qed.

Lemma elem_of_matching_regions sd name i n e :
  e ∈ matching_regions sd name i n
  <-> exists j, i <= j < i + Z.of_nat n
        /\ tr_pid (region_at sd j) <> NOBODY
        /\ name_key (tr_name (region_at sd j)) = name_key name
        /\ e = {| rl_pid := tr_pid (region_at sd j);
                  rl_region_id := j;
                  rl_mpi_time := tr_mpi_time (region_at sd j);
                  rl_useful_time := tr_useful_time (region_at sd j);
                  rl_avg_cpus := tr_avg_cpus (region_at sd j) |}.
Proof.
  revert i. induction n as [|n IH]; intros i; simpl.
  - split; [by intros ?%elem_of_nil | intros (j & Hj & _); lia].
  - rewrite elem_of_app, IH. split.
    + intros [He|(j & Hj & H)]; [|exists j; split; [lia|done]].
      destruct (tr_pid (region_at sd i) =? NOBODY) eqn:Ep; simpl in He;
        [by apply elem_of_nil in He|].
      destruct (strncmp (tr_name (region_at sd i)) name (name_max - 1) =? 0)
        eqn:En; [|by apply elem_of_nil in He].
      apply list_elem_of_singleton in He. exists i.
      split; [lia|]. split; [by apply Z.eqb_neq|]. split; [|done].
      apply Z.eqb_eq in En. by apply strncmp_zero.
    + intros (j & Hj & Hp & Hn & ->).
      destruct (decide (j = i)) as [->|Hne]; [left|right].
      * rewrite (proj2 (Z.eqb_neq _ _)) by done.
        rewrite (proj2 (Z.eqb_eq _ _)) by (by apply strncmp_zero).
        simpl. by apply list_elem_of_singleton.
      * exists j. split; [lia|done].
Qed.

Lemma matching_regions_ids sd name i n :
  NoDup (map rl_region_id (matching_regions sd name i n)).
Proof.
  revert i. induction n as [|n IH]; intros i; simpl; [constructor|].
  destruct (negb (tr_pid (region_at sd i) =? NOBODY)
            && (strncmp (tr_name (region_at sd i)) name (name_max - 1) =? 0));
    simpl; [|apply IH].
  constructor; [|apply IH].
  intros (e & He & Hin)%list_elem_of_fmap.
  apply elem_of_matching_regions in Hin as (j & Hj & _ & _ & ->).
  simpl in He. lia.
Qed.

(** C7. On an attached segment [get_regionlist(name)] succeeds; it
    writes at most [max_len] entries and reports how many.  Every entry
    written stands for a slot of the dense prefix that has an owner and
    whose name matches: its [pid], [region_id], [mpi_time], [useful_time]
    and [avg_cpus] are the owner, the index and the three counters of that
    slot's record, whatever the pid.  The entries are, in some order, the
    first [max_len] of these copies in table order, all of them when the
    buffer is large enough, so that then every live record named [name]
    has its entry in the list; and when the owners are process ids the
    entries come out in ascending order of pid. *)
Theorem get_regionlist_sorted max_len name w :
  shm_handler w = true ->
  exists region_list,
    shmem_talp__get_regionlist max_len name w
    = (DLB_SUCCESS, Some region_list)
    /\ Z.of_nat (length region_list) <= Z.max 0 max_len
    /\ region_list
       ≡ₚ take (Z.to_nat max_len)
            (matching_regions (shm w) name 0
               (Z.to_nat (sd_num_regions (shm w))))
    /\ (forall e,
          e ∈ matching_regions (shm w) name 0
                (Z.to_nat (sd_num_regions (shm w)))
          <-> exists j, 0 <= j < sd_num_regions (shm w)
                /\ tr_pid (region_at (shm w) j) <> NOBODY
                /\ name_key (tr_name (region_at (shm w) j)) = name_key name
                /\ e = {| rl_pid := tr_pid (region_at (shm w) j);
                          rl_region_id := j;
                          rl_mpi_time := tr_mpi_time (region_at (shm w) j);
                          rl_useful_time :=
                            tr_useful_time (region_at (shm w) j);
                          rl_avg_cpus := tr_avg_cpus (region_at (shm w) j) |})
    /\ (Z.of_nat (length (matching_regions (shm w) name 0
                            (Z.to_nat (sd_num_regions (shm w))))) <= max_len ->
        region_list
        ≡ₚ matching_regions (shm w) name 0 (Z.to_nat (sd_num_regions (shm w))))
    /\ (pids_valid (shm w) -> Sorted Z.le (map rl_pid region_list))
    /\ (forall e,
          e ∈ region_list ->
          0 <= rl_region_id e < sd_num_regions (shm w)
          /\ tr_pid (region_at (shm w) (rl_region_id e)) <> NOBODY
          /\ name_key (tr_name (region_at (shm w) (rl_region_id e)))
             = name_key name
          /\ rl_pid e = tr_pid (region_at (shm w) (rl_region_id e))
          /\ rl_mpi_time e = tr_mpi_time (region_at (shm w) (rl_region_id e))
          /\ rl_useful_time e
             = tr_useful_time (region_at (shm w) (rl_region_id e))
          /\ rl_avg_cpus e = tr_avg_cpus (region_at (shm w) (rl_region_id e)))
    /\ (Z.of_nat (length (matching_regions (shm w) name 0
                            (Z.to_nat (sd_num_regions (shm w))))) <= max_len ->
        forall j,
          0 <= j < sd_num_regions (shm w) ->
          tr_pid (region_at (shm w) j) <> NOBODY ->
          name_key (tr_name (region_at (shm w) j)) = name_key name ->
          {| rl_pid := tr_pid (region_at (shm w) j);
             rl_region_id := j;
             rl_mpi_time := tr_mpi_time (region_at (shm w) j);
             rl_useful_time := tr_useful_time (region_at (shm w) j);
             rl_avg_cpus := tr_avg_cpus (region_at (shm w) j) |}
          ∈ region_list)
    /\ NoDup (map rl_region_id region_list).
Proof.
  intros Hh. unfold shmem_talp__get_regionlist. rewrite Hh. simpl.
  eexists. split; [done|].
  rewrite regionlist_loop_spec. simpl. rewrite Nat.sub_0_r.
  set (ms := matching_regions (shm w) name 0
               (Z.to_nat (sd_num_regions (shm w)))).
  assert (forall e, e ∈ ms
            <-> exists j, 0 <= j < sd_num_regions (shm w)
                  /\ tr_pid (region_at (shm w) j) <> NOBODY
                  /\ name_key (tr_name (region_at (shm w) j)) = name_key name
                  /\ e = {| rl_pid := tr_pid (region_at (shm w) j);
                            rl_region_id := j;
                            rl_mpi_time := tr_mpi_time (region_at (shm w) j);
                            rl_useful_time :=
                              tr_useful_time (region_at (shm w) j);
                            rl_avg_cpus :=
                              tr_avg_cpus (region_at (shm w) j) |}) as Hms.
  { intros e. unfold ms. rewrite elem_of_matching_regions.
    split; intros (j & Hj & H); exists j; (split; [lia|done]). }
  split; [|split; [|split; [done|split; [|split; [|split; [|split]]]]]].
  - rewrite (Permutation_length (qsort_perm _ _)), length_take. lia.
  - apply qsort_perm.
  - intros Hall. rewrite qsort_perm. by rewrite take_ge by lia.
  - intros Hv. apply qsort_sorted. apply Forall_forall. intros e He.
    apply elem_of_take in He as (k & He & _).
    apply list_elem_of_lookup_2 in He. apply Hms in He as (j & Hj & _ & _ & ->).
    simpl. by apply Hv.
  - intros e He. rewrite qsort_perm in He.
    apply elem_of_take in He as (k & He & _).
    apply list_elem_of_lookup_2 in He.
    apply Hms in He as (j & Hj & Hp & Hn & ->). simpl. done.
  - intros Hall j Hj Hp Hn. rewrite qsort_perm, take_ge by lia.
    apply Hms. by exists j.
  - rewrite qsort_perm.
    apply (sublist_NoDup _ (map rl_region_id ms));
      [apply matching_regions_ids|].
    apply fmap_sublist, sublist_take.
Qed.

(** ** Attach-time capacity mismatch *)

(** C8. When the segment found at attach is initialised with a capacity
    other than the one this process computed, [shmem_talp__init] returns
    [DLB_ERR_INIT]; the payload is the one found at attach, unwritten;
    and the attach counter, incremented by the attach, is decremented
    again: back to its value before the call when the process was
    attached already, and to zero, with the handle and the mapping
    released through [shmem_finalize], when this call made the attach. *)
Theorem init_capacity_mismatch shmem_key shmem_size_multiplier w :
  let w1 := open_shmem shmem_key shmem_size_multiplier w in
  sd_initialized (shm w1) = true ->
  sd_max_regions (shm w1) <> max_regions w1 ->
  fst (shmem_talp__init shmem_key shmem_size_multiplier w) = DLB_ERR_INIT
  /\ shm (snd (shmem_talp__init shmem_key shmem_size_multiplier w)) = shm w1
  /\ subprocesses_attached
       (snd (shmem_talp__init shmem_key shmem_size_multiplier w))
     = subprocesses_attached w1 - 1
  /\ (shm_handler w = true ->
      subprocesses_attached w1 = subprocesses_attached w + 1
      /\ shm w1 = shm w)
  /\ (shm_handler w = false ->
      subprocesses_attached w1 = 1
      /\ shm_handler
           (snd (shmem_talp__init shmem_key shmem_size_multiplier w)) = false
      /\ shdata
           (snd (shmem_talp__init shmem_key shmem_size_multiplier w)) = false
      /\ shmem_calls
           (snd (shmem_talp__init shmem_key shmem_size_multiplier w))
         = Shmem_finalize (is_shmem_empty (shm w1)) :: shmem_calls w1).
Proof.
  intros w1 Hinit Hne. unfold shmem_talp__init. fold w1.
  rewrite Hinit. simpl.
  rewrite (proj2 (Z.eqb_neq _ _)) by done. simpl.
  split; [done|]. split; [apply shm_close_shmem|].
  split; [unfold close_shmem; by case_match|].
  split; intros Hh; unfold w1, open_shmem, close_shmem; rewrite Hh; simpl; done.
Qed.

(** ** The shape of the table *)

Lemma table_shape_run_op o w : table_shape w -> table_shape (run_op o w).
Proof.
  unfold table_shape. intros Hs.
  destruct o as [pid avg name|rid m u|rid a|pid|pid]; simpl.
  - unfold shmem_talp__register.
    repeat (case_match; simpl; try done).
    match goal with H : (_ <? _) = true |- _ => apply Z.ltb_lt in H end. lia.
  - unfold shmem_talp__set_times. repeat (case_match; simpl; try done).
  - unfold shmem_talp__set_avg_cpus. repeat (case_match; simpl; try done).
  - unfold shmem_talp__finalize. case_match; simpl; [done|].
    rewrite shm_close_shmem. simpl.
    pose proof (finalize_clear_header pid (shm w)) as (_ & _ & ->).
    unfold close_shmem. by case_match.
  - destruct (survivor_or_not pid (shm w)) as [H|H].
    + rewrite cleanup_shmem_survivor by done.
      by pose proof (finalize_clear_header pid (shm w)) as (_ & _ & ->).
    + rewrite cleanup_shmem_wipe by done. simpl. lia.
Qed.







(** ** The metadata queries *)

(** C10. [shmem_talp__get_num_regions] has no not-attached guard: it
    reads through [shdata] unconditionally, so its result is defined
    exactly when a segment is mapped, in which case it is the size of the
    table, and no result of it is an error code; while
    [shmem_talp__initialized] tests the pointer first and answers [false]
    without a mapping, and the other operations report
    [DLB_ERR_NOSHMEM]. *)
Theorem get_num_regions_unguarded w :
  (shdata w = true ->
   shmem_talp__get_num_regions w = Some (sd_num_regions (shm w)))
  /\ (shdata w = false ->
      shmem_talp__get_num_regions w = None
      /\ shmem_talp__initialized w = false)
  /\ (is_Some (shmem_talp__get_num_regions w) <-> shdata w = true)
  /\ (shm_handler w = false ->
      forall region_id pid avg_cpus name max_len,
        fst (shmem_talp__get_times region_id w) = DLB_ERR_NOSHMEM
        /\ fst (fst (shmem_talp__register pid avg_cpus name w))
           = DLB_ERR_NOSHMEM
        /\ fst (shmem_talp__get_pidlist max_len w) = DLB_ERR_NOSHMEM
        /\ fst (shmem_talp__finalize pid w) = DLB_ERR_NOSHMEM).
Proof.
  unfold shmem_talp__get_num_regions, shmem_talp__initialized.
  split; [by intros ->|]. split; [by intros ->|]. split.
  - destruct (shdata w); split; try done; by intros [x [=]].
  - intros Hh region_id pid avg_cpus name max_len.
    unfold shmem_talp__get_times, shmem_talp__register,
      shmem_talp__get_pidlist, shmem_talp__finalize.
    by rewrite Hh.
Qed.

(** ** The list of pids *)

Lemma pidlist_index_bound pid pidlist i :
  (i <= pidlist_index pid pidlist i <= i + length pidlist)%nat.
Proof.
  revert i. induction pidlist as [|p l IH]; intros i; simpl; [lia|].
  destruct (pid =? p); [lia|]. specialize (IH (S i)). lia.
Qed.

(** The inner loop runs to its end exactly when the pid is not yet in the
    list. *)
Lemma pidlist_index_end pid pidlist i :
  pidlist_index pid pidlist i = (i + length pidlist)%nat <-> pid ∉ pidlist.
Proof.
  revert i. induction pidlist as [|p l IH]; intros i; simpl.
  - split; [intros _; apply not_elem_of_nil | lia].
  - rewrite not_elem_of_cons. destruct (pid =? p) eqn:E.
    + apply Z.eqb_eq in E. split; [lia | by intros [? _]].
    + apply Z.eqb_neq in E. rewrite <- (IH (S i)).
      split; [intros H; split; [done|lia] | intros [_ H]; lia].
Qed.

Lemma pidlist_loop_spec sd max_len i n acc :
  0 <= i ->
  NoDup acc ->
  (forall p, p ∈ acc ->
     p <> NOBODY /\ exists j, 0 <= j < i /\ tr_pid (region_at sd j) = p) ->
  let l := pidlist_loop sd max_len i n acc in
  NoDup l
  /\ (exists rest, l = acc ++ rest)
  /\ Z.of_nat (length l) <= Z.max (Z.of_nat (length acc)) max_len
  /\ (forall p, p ∈ l ->
        p <> NOBODY
        /\ exists j, 0 <= j < i + Z.of_nat n /\ tr_pid (region_at sd j) = p)
  /\ (Z.of_nat (length l) < max_len ->
      forall j, i <= j < i + Z.of_nat n ->
        tr_pid (region_at sd j) <> NOBODY -> tr_pid (region_at sd j) ∈ l).
Proof.
  revert i acc. induction n as [|n IH]; intros i acc Hi Hnd Hacc; simpl.
  - split; [done|]. split; [by exists []; rewrite app_nil_r|].
    split; [lia|]. split; [|intros; lia].
    intros p Hp. destruct (Hacc p Hp) as (? & j & ? & ?).
    split; [done|]. exists j. split; [lia|done].
  - destruct (Z.of_nat (length acc) <? max_len) eqn:Elen.
    2:{ apply Z.ltb_ge in Elen. split; [done|].
        split; [by exists []; rewrite app_nil_r|]. split; [lia|].
        split; [|intros; lia].
        intros p Hp. destruct (Hacc p Hp) as (? & j & ? & ?).
        split; [done|]. exists j. split; [lia|done]. }
    apply Z.ltb_lt in Elen.
    set (pid := tr_pid (region_at sd i)).
    set (acc' := if negb (pid =? NOBODY)
                 then if (pidlist_index pid acc 0 =? length acc)%nat
                      then acc ++ [pid] else acc
                 else acc).
    assert (NoDup acc'
            /\ (exists rest, acc' = acc ++ rest)
            /\ Z.of_nat (length acc') <= Z.of_nat (length acc) + 1
            /\ (forall p, p ∈ acc' ->
                  p <> NOBODY
                  /\ exists j, 0 <= j < i + 1 /\ tr_pid (region_at sd j) = p)
            /\ (pid <> NOBODY -> pid ∈ acc')) as (Hnd' & Hpre & Hlen' & Hacc' & Hin).
    { assert (forall p, p ∈ acc ->
                p <> NOBODY
                /\ exists j, 0 <= j < i + 1 /\ tr_pid (region_at sd j) = p)
        as Hacc1.
      { intros p Hp. destruct (Hacc p Hp) as (? & j & ? & ?).
        split; [done|]. exists j. split; [lia|done]. }
      unfold acc'. destruct (pid =? NOBODY) eqn:Ep; simpl.
      { apply Z.eqb_eq in Ep. repeat split; try done.
        - by exists []; rewrite app_nil_r.
        - lia.
        - apply Hacc1; done.
        - apply Hacc1; done. }
      apply Z.eqb_neq in Ep.
      destruct (pidlist_index pid acc 0 =? length acc)%nat eqn:Ei.
      - apply Nat.eqb_eq in Ei.
        assert (pid ∉ acc) as Hnot by (by apply (pidlist_index_end pid acc 0)).
        split; [apply NoDup_app; split; [done|]; split;
                [intros x Hx ->%list_elem_of_singleton; done
                |apply NoDup_singleton]|].
        split; [by exists [pid]|].
        split; [rewrite length_app; simpl; lia|].
        split.
        + intros p [Hp| ->%list_elem_of_singleton]%elem_of_app;
            [by apply Hacc1|].
          split; [done|]. exists i. split; [lia|done].
        + intros _. apply elem_of_app. right. by apply list_elem_of_singleton.
      - apply Nat.eqb_neq in Ei.
        assert (pid ∈ acc) as Hin.
        { destruct (decide (pid ∈ acc)) as [|Hnot]; [done|].
          by apply (pidlist_index_end pid acc 0) in Hnot. }
        split; [done|]. split; [by exists []; rewrite app_nil_r|].
        split; [lia|]. split; [done|done]. }
    destruct (IH (i + 1) acc' ltac:(lia) Hnd' Hacc')
      as (H1 & (rest & H2) & H3 & H4 & H5).
    destruct Hpre as (rest0 & Hpre).
    split; [done|].
    split; [exists (rest0 ++ rest); by rewrite H2, Hpre, app_assoc|].
    split; [lia|]. split.
    + intros p Hp. destruct (H4 p Hp) as (? & j & ? & ?).
      split; [done|]. exists j. split; [lia|done].
    + intros Hroom j Hj Hp.
      destruct (decide (j = i)) as [->|Hne].
      * rewrite H2. apply elem_of_app. left. by apply Hin.
      * apply H5; [done|lia|done].
Qed.

(** X1. On an attached segment [get_pidlist] succeeds; the pids it
    writes are pairwise distinct, none is [NOBODY], each owns a record of
    the dense prefix, and they are at most [max_len]; and when the buffer
    was not filled, every owner of the dense prefix is among them.
    Without a segment it returns [DLB_ERR_NOSHMEM] and writes nothing. *)
Theorem get_pidlist_spec max_len w :
  (shm_handler w = true ->
   exists pidlist,
     shmem_talp__get_pidlist max_len w = (DLB_SUCCESS, Some pidlist)
     /\ NoDup pidlist
     /\ Z.of_nat (length pidlist) <= Z.max 0 max_len
     /\ (forall p, p ∈ pidlist ->
           p <> NOBODY
           /\ exists j, 0 <= j < sd_num_regions (shm w)
                        /\ tr_pid (region_at (shm w) j) = p)
     /\ (Z.of_nat (length pidlist) < max_len ->
         forall j, 0 <= j < sd_num_regions (shm w) ->
           tr_pid (region_at (shm w) j) <> NOBODY ->
           tr_pid (region_at (shm w) j) ∈ pidlist))
  /\ (shm_handler w = false ->
      shmem_talp__get_pidlist max_len w = (DLB_ERR_NOSHMEM, None)).
Proof.
  split; intros Hh; unfold shmem_talp__get_pidlist; rewrite Hh; simpl;
    [|done].
  eexists. split; [done|].
  destruct (pidlist_loop_spec (shm w) max_len 0
              (Z.to_nat (sd_num_regions (shm w))) [])
    as (H1 & _ & H3 & H4 & H5);
    [lia | apply NoDup_nil_2 | by intros p ?%elem_of_nil |].
  split; [done|]. split; [simpl in H3; lia|]. split.
  - intros p Hp. destruct (H4 p Hp) as (? & j & ? & ?).
    split; [done|]. exists j. split; [lia|done].
  - intros Hroom j Hj Hp. apply H5; [done|lia|done].
Qed.

(** ** Looking a region up *)

(** The lookup loop and the search loop of registration stop at the same
    slot. *)
Lemma get_region_loop_scan sd pid name i n :
  get_region_loop sd pid name i n
  = if register_scan sd pid name i n <? i + Z.of_nat n
    then Some (snapshot pid (register_scan sd pid name i n)
                 (region_at sd (register_scan sd pid name i n)))
    else None.
Proof.
  revert i. induction n as [|n IH]; intros i; simpl.
  - by rewrite (proj2 (Z.ltb_ge _ _)) by lia.
  - destruct (region_matches (region_at sd i) pid name).
    + by rewrite (proj2 (Z.ltb_lt _ _)) by lia.
    + rewrite IH.
      replace (i + 1 + Z.of_nat n) with (i + Z.of_nat (S n)) by lia. done.
Qed.

Lemma get_region_found pid name w i :
  registered_at pid name i w ->
  shmem_talp__get_region pid name w
  = (DLB_SUCCESS, Some (snapshot pid i (region_at (shm w) i))).
Proof.
  intros (Hh & Hi & Hm & Hbefore). unfold shmem_talp__get_region.
  rewrite Hh. simpl. rewrite get_region_loop_scan.
  rewrite (register_scan_first _ _ _ 0 _ i) by (done || lia).
  by rewrite (proj2 (Z.ltb_lt _ _)) by lia.
Qed.

Lemma get_region_none pid name w :
  shm_handler w = true ->
  unregistered pid name w ->
  shmem_talp__get_region pid name w = (DLB_ERR_NOPROC, None).
Proof.
  intros Hh Hnone. unfold shmem_talp__get_region. rewrite Hh. simpl.
  rewrite get_region_loop_scan.
  rewrite register_scan_none by (intros j Hj; apply Hnone; lia).
  by rewrite Z.ltb_irrefl.
Qed.

(** X2. On an attached table [get_region] and [register] agree: when
    [get_region(pid, name)] succeeds, its snapshot is the copy of the
    first record of the dense prefix that answers to the pair, and
    [register] of the same pair returns that id with [DLB_NOUPDT];
    otherwise it returns [DLB_ERR_NOPROC] with no snapshot, no record
    answers to the pair and [register] does not return [DLB_NOUPDT]. *)
Theorem get_region_agrees_register pid avg_cpus name w :
  shm_handler w = true ->
  0 <= sd_num_regions (shm w) ->
  (exists i,
     registered_at pid name i w
     /\ shmem_talp__get_region pid name w
        = (DLB_SUCCESS, Some (snapshot pid i (region_at (shm w) i)))
     /\ fst (shmem_talp__register pid avg_cpus name w)
        = (DLB_NOUPDT, Some i))
  \/ (unregistered pid name w
      /\ shmem_talp__get_region pid name w = (DLB_ERR_NOPROC, None)
      /\ fst (fst (shmem_talp__register pid avg_cpus name w)) <> DLB_NOUPDT).
Proof.
  intros Hh Hn.
  destruct (register_cases pid name w Hh Hn) as [[i Hi]|Hnone]; [left|right].
  - exists i. split; [done|]. split; [by apply get_region_found|].
    by rewrite (register_found _ avg_cpus _ _ _ Hi).
  - split; [done|]. split; [by apply get_region_none|].
    rewrite register_fresh by done. by case_match.
Qed.

(** X3. A pair registered with success is found at once: [get_region]
    returns its id, the pid, zeroed counters and the [avg_cpus] given to
    [register]; and for a pid other than [NOBODY] the counters of the new
    id read as zero. *)
Theorem register_then_get_region pid avg_cpus name w i w1 :
  mapped w ->
  0 <= sd_num_regions (shm w) ->
  shmem_talp__register pid avg_cpus name w = (DLB_SUCCESS, Some i, w1) ->
  shmem_talp__get_region pid name w1
  = (DLB_SUCCESS,
     Some {| rl_pid := pid; rl_region_id := i; rl_mpi_time := 0;
             rl_useful_time := 0; rl_avg_cpus := avg_cpus |})
  /\ (pid <> NOBODY ->
      shmem_talp__get_times i w1 = (DLB_SUCCESS, Some (0, 0))).
Proof.
  intros Hmap Hn Hreg.
  destruct (shm_handler w) eqn:Hh;
    [|unfold shmem_talp__register in Hreg; by rewrite Hh in Hreg].
  destruct (register_cases pid name w Hh Hn) as [[k Hk]|Hnone].
  { by rewrite (register_found _ avg_cpus _ _ _ Hk) in Hreg. }
  rewrite register_fresh in Hreg by done.
  destruct (sd_num_regions (shm w) <? max_regions w) eqn:Hlt; [|done].
  injection Hreg as <- <-. apply Z.ltb_lt in Hlt.
  pose proof (registered_at_fresh pid avg_cpus name w Hmap Hh ltac:(lia) Hnone)
    as Hr.
  assert (sd_num_regions (shm w)
          < Z.of_nat (length (sd_talp_region (shm w)))) as Hlen.
  { unfold mapped, shmem_talp__size in Hmap. rewrite Hmap.
    rewrite (proj2 (Z.ltb_lt _ _)) by lia. lia. }
  split.
  - rewrite (get_region_found _ _ _ _ Hr). simpl.
    rewrite region_at_store_eq by (simpl; lia). done.
  - intros Hpid. unfold shmem_talp__get_times. simpl. rewrite Hh. simpl.
    rewrite (proj2 (Z.leb_gt _ _)) by lia.
    rewrite (proj2 (Z.leb_gt _ _)) by lia.
    rewrite (proj2 (Z.ltb_ge _ _)) by lia.
    rewrite region_at_store_eq by (simpl; lia). simpl.
    by rewrite (proj2 (Z.eqb_neq _ _)).
Qed.

(** ** What a counter call touches *)

Lemma counter_call_success c w :
  fst (run_counter_call c w) = DLB_SUCCESS ->
  shm_handler w = true
  /\ 0 <= call_region_id c < sd_num_regions (shm w)
  /\ call_region_id c < max_regions w
  /\ owned (call_region_id c) w.
Proof.
  unfold owned.
  destruct c as [rid|rid m u|rid a]; simpl;
    unfold shmem_talp__get_times, shmem_talp__set_times,
      shmem_talp__set_avg_cpus.
  all: destruct (shm_handler w); simpl; [|done].
  all: destruct (max_regions w <=? rid) eqn:E1; [done|].
  all: destruct (sd_num_regions (shm w) <=? rid) eqn:E2; [done|].
  all: destruct (rid <? 0) eqn:E3; [done|].
  all: destruct (tr_pid (region_at (shm w) rid) =? NOBODY) eqn:E4; [done|].
  all: intros _; apply Z.leb_gt in E1, E2; apply Z.ltb_ge in E3;
         apply Z.eqb_neq in E4; repeat split; (done || lia).
Qed.

Lemma set_times_success rid m u w :
  shm_handler w = true -> registered_id rid w -> owned rid w ->
  shmem_talp__set_times rid m u w
  = (DLB_SUCCESS,
     set_shm (store_region rid (store_times m u (region_at (shm w) rid))) w).
Proof.
  intros Hh [Hid Hcap] Ho. unfold owned in Ho. apply Z.eqb_neq in Ho.
  unfold shmem_talp__set_times. rewrite Hh, Ho. simpl.
  rewrite (proj2 (Z.leb_gt _ _)) by lia.
  rewrite (proj2 (Z.leb_gt _ _)) by lia.
  by rewrite (proj2 (Z.ltb_ge _ _)) by lia.
Qed.

Lemma set_avg_cpus_success rid a w :
  shm_handler w = true -> registered_id rid w -> owned rid w ->
  shmem_talp__set_avg_cpus rid a w
  = (DLB_SUCCESS,
     set_shm (store_region rid (store_avg_cpus a (region_at (shm w) rid))) w).
Proof.
  intros Hh [Hid Hcap] Ho. unfold owned in Ho. apply Z.eqb_neq in Ho.
  unfold shmem_talp__set_avg_cpus. rewrite Hh, Ho. simpl.
  rewrite (proj2 (Z.leb_gt _ _)) by lia.
  rewrite (proj2 (Z.leb_gt _ _)) by lia.
  by rewrite (proj2 (Z.ltb_ge _ _)) by lia.
Qed.

Lemma get_times_success rid w :
  shm_handler w = true -> registered_id rid w -> owned rid w ->
  shmem_talp__get_times rid w
  = (DLB_SUCCESS,
     Some (tr_mpi_time (region_at (shm w) rid),
           tr_useful_time (region_at (shm w) rid))).
Proof.
  intros Hh [Hid Hcap] Ho. unfold owned in Ho. apply Z.eqb_neq in Ho.
  unfold shmem_talp__get_times. rewrite Hh, Ho. simpl.
  rewrite (proj2 (Z.leb_gt _ _)) by lia.
  rewrite (proj2 (Z.leb_gt _ _)) by lia.
  by rewrite (proj2 (Z.ltb_ge _ _)) by lia.
Qed.

(** X4. A counter call that succeeds touches one slot and nothing else:
    the statics, the header of the table, the length of the array and
    every other record are as before, and so are the owner and the name
    of the slot itself.  [get_times] changes nothing at all, [set_times]
    stores the two counters and keeps [avg_cpus], [set_avg_cpus] stores
    [avg_cpus] and keeps the two counters. *)
Theorem counter_call_frame c w :
  fst (run_counter_call c w) = DLB_SUCCESS ->
  shm_handler (snd (run_counter_call c w)) = shm_handler w
  /\ shdata (snd (run_counter_call c w)) = shdata w
  /\ max_regions (snd (run_counter_call c w)) = max_regions w
  /\ subprocesses_attached (snd (run_counter_call c w))
     = subprocesses_attached w
  /\ shmem_calls (snd (run_counter_call c w)) = shmem_calls w
  /\ sd_initialized (shm (snd (run_counter_call c w)))
     = sd_initialized (shm w)
  /\ sd_max_regions (shm (snd (run_counter_call c w)))
     = sd_max_regions (shm w)
  /\ sd_num_regions (shm (snd (run_counter_call c w)))
     = sd_num_regions (shm w)
  /\ length (sd_talp_region (shm (snd (run_counter_call c w))))
     = length (sd_talp_region (shm w))
  /\ (forall j, 0 <= j -> j <> call_region_id c ->
        region_at (shm (snd (run_counter_call c w))) j
        = region_at (shm w) j)
  /\ tr_pid (region_at (shm (snd (run_counter_call c w))) (call_region_id c))
     = tr_pid (region_at (shm w) (call_region_id c))
  /\ tr_name (region_at (shm (snd (run_counter_call c w))) (call_region_id c))
     = tr_name (region_at (shm w) (call_region_id c))
  /\ match c with
     | Get_times _ => snd (run_counter_call c w) = w
     | Set_times rid m u =>
         region_at (shm (snd (run_counter_call c w))) rid
         = store_times m u (region_at (shm w) rid)
     | Set_avg_cpus rid a =>
         region_at (shm (snd (run_counter_call c w))) rid
         = store_avg_cpus a (region_at (shm w) rid)
     end.
Proof.
  intros Hok.
  destruct (counter_call_success c w Hok) as (Hh & Hid & Hcap & Ho).
  pose proof (owned_in_range (call_region_id c) w ltac:(lia) Ho) as Hlen.
  destruct c as [rid|rid m u|rid a]; simpl in *.
  - repeat split; done.
  - rewrite set_times_success by done. simpl.
    rewrite length_insert, region_at_store_eq by lia. simpl.
    repeat split; try done.
    intros j Hj Hne. by rewrite region_at_store_ne by lia.
  - rewrite set_avg_cpus_success by done. simpl.
    rewrite length_insert, region_at_store_eq by lia. simpl.
    repeat split; try done.
    intros j Hj Hne. by rewrite region_at_store_ne by lia.
Qed.

(** X5. What the owner stores is what the queries show: after
    [set_times] and [set_avg_cpus] on the id of a registered pair,
    [get_region] of the pair returns that id with the two counters and
    the [avg_cpus] stored, and [get_times] returns the two counters. *)
Theorem stored_values_are_reported pid name i mpi_time useful_time avg_cpus w :
  registered_at pid name i w ->
  pid <> NOBODY ->
  i < max_regions w ->
  exists w1 w2,
    shmem_talp__set_times i mpi_time useful_time w = (DLB_SUCCESS, w1)
    /\ shmem_talp__set_avg_cpus i avg_cpus w1 = (DLB_SUCCESS, w2)
    /\ shmem_talp__get_region pid name w2
       = (DLB_SUCCESS,
          Some {| rl_pid := pid; rl_region_id := i;
                  rl_mpi_time := mpi_time; rl_useful_time := useful_time;
                  rl_avg_cpus := avg_cpus |})
    /\ shmem_talp__get_times i w2
       = (DLB_SUCCESS, Some (mpi_time, useful_time)).
Proof.
  intros Hr Hpid Hcap.
  pose proof Hr as (Hh & Hi & Hm & _).
  apply region_matches_spec in Hm as [Hp _].
  assert (owned i w) as Ho by (unfold owned; by rewrite Hp).
  pose proof (owned_in_range i w ltac:(lia) Ho) as Hlen.
  assert (registered_id i w) as Hrid by (split; lia).
  exists (set_shm (store_region i
                     (store_times mpi_time useful_time (region_at (shm w) i)))
            w).
  set (w1 := set_shm _ w).
  assert (shm_handler w1 = true) as Hh1 by done.
  assert (registered_id i w1) as Hrid1 by done.
  assert (region_at (shm w1) i
          = store_times mpi_time useful_time (region_at (shm w) i)) as Hw1.
  { unfold w1. simpl. by rewrite region_at_store_eq by lia. }
  assert (owned i w1) as Ho1 by (unfold owned; by rewrite Hw1).
  assert (length (sd_talp_region (shm w1)) = length (sd_talp_region (shm w)))
    as Hlen1 by (unfold w1; simpl; apply length_insert).
  assert (registered_at pid name i w1) as Hr1.
  { apply (registered_at_keeps pid name i
             (Op_set_times i mpi_time useful_time) w) in Hr as Hy; [|done].
    simpl in Hy. by rewrite set_times_success in Hy by done. }
  assert (shmem_talp__set_times i mpi_time useful_time w = (DLB_SUCCESS, w1))
    as Hset1 by (by apply set_times_success).
  clearbody w1.
  exists (set_shm (store_region i (store_avg_cpus avg_cpus (region_at (shm w1) i)))
            w1).
  set (w2 := set_shm _ w1).
  assert (shm_handler w2 = true) as Hh2 by done.
  assert (registered_id i w2) as Hrid2 by done.
  assert (region_at (shm w2) i
          = store_avg_cpus avg_cpus
              (store_times mpi_time useful_time (region_at (shm w) i)))
    as Hw2.
  { unfold w2. simpl. rewrite region_at_store_eq by lia. by rewrite Hw1. }
  assert (registered_at pid name i w2) as Hr2.
  { apply (registered_at_keeps pid name i (Op_set_avg_cpus i avg_cpus) w1)
      in Hr1 as Hx; [|done].
    simpl in Hx. by rewrite set_avg_cpus_success in Hx by done. }
  assert (shmem_talp__set_avg_cpus i avg_cpus w1 = (DLB_SUCCESS, w2))
    as Hset2 by (by apply set_avg_cpus_success).
  clearbody w2.
  split; [done|]. split; [done|]. split.
  - rewrite (get_region_found _ _ _ _ Hr2), Hw2. done.
  - rewrite get_times_success; [by rewrite Hw2|done|done|].
    unfold owned. by rewrite Hw2.
Qed.

(** ** The emptiness test *)

Lemma is_shmem_empty_loop_iff sd i n :
  is_shmem_empty_loop sd i n = true
  <-> forall j, i <= j < i + Z.of_nat n -> tr_pid (region_at sd j) = NOBODY.
Proof.
  split; [|apply is_shmem_empty_loop_true].
  revert i. induction n as [|n IH]; intros i; simpl; [intros; lia|].
  destruct (tr_pid (region_at sd i) =? NOBODY) eqn:E; simpl; [|done].
  apply Z.eqb_eq in E. intros H j Hj.
  destruct (decide (j = i)) as [->|]; [done|]. apply (IH (i + 1)); [done|lia].
Qed.

(** X6. [is_shmem_empty] holds exactly when every slot of the dense
    prefix has owner [NOBODY].  It is stricter than the test of crash
    cleanup, which lets owners that are not positive pass: an empty table
    has no survivor for any pid, and on a table whose owners are never
    negative the two tests agree. *)
Theorem is_shmem_empty_spec sd :
  (is_shmem_empty sd = true
   <-> forall j, 0 <= j < sd_num_regions sd ->
                 tr_pid (region_at sd j) = NOBODY)
  /\ (is_shmem_empty sd = true -> forall pid, no_survivor pid sd)
  /\ ((forall j, 0 <= j < sd_num_regions sd -> 0 <= tr_pid (region_at sd j)) ->
      no_survivor NOBODY sd -> is_shmem_empty sd = true).
Proof.
  assert (is_shmem_empty sd = true
          <-> forall j, 0 <= j < sd_num_regions sd ->
                        tr_pid (region_at sd j) = NOBODY) as Hiff.
  { unfold is_shmem_empty. rewrite is_shmem_empty_loop_iff.
    split; intros H j Hj; apply H; lia. }
  split; [done|]. split.
  - intros He pid j Hj. right. rewrite (proj1 Hiff He j Hj). done.
  - intros Hpos Hs. apply Hiff. intros j Hj.
    specialize (Hpos j Hj). destruct (Hs j Hj); unfold NOBODY in *; lia.
Qed.

(** ** Attach and detach *)

Lemma open_shmem_attached shmem_key m w :
  shm_handler w = true ->
  open_shmem shmem_key m w
  = set_subprocesses_attached (subprocesses_attached w + 1) w.
Proof.
  intros Hh. unfold open_shmem, set_subprocesses_attached. by rewrite Hh.
Qed.

Lemma ext_init_iter shmem_key m n w :
  shm_handler w = false ->
  Nat.iter (S n) (fun w => snd (shmem_talp_ext__init shmem_key m w)) w
  = set_subprocesses_attached (Z.of_nat (S n))
      (open_shmem shmem_key m w).
Proof.
  intros Hh. induction n as [|n IH].
  - simpl. unfold open_shmem. by rewrite Hh.
  - rewrite Nat.iter_succ, IH.
    unfold shmem_talp_ext__init. cbn [snd].
    rewrite open_shmem_attached
      by (unfold open_shmem; by rewrite Hh).
    unfold set_subprocesses_attached. simpl. f_equal. lia.
Qed.

Lemma ext_finalize_iter k w :
  shm_handler w = true ->
  Z.of_nat k < subprocesses_attached w ->
  Nat.iter k (fun w => snd (shmem_talp_ext__finalize w)) w
  = set_subprocesses_attached (subprocesses_attached w - Z.of_nat k) w.
Proof.
  intros Hh. induction k as [|k IH]; intros Hk.
  - destruct w. unfold set_subprocesses_attached. simpl. f_equal. lia.
  - rewrite Nat.iter_succ, IH by lia.
    unfold shmem_talp_ext__finalize, close_shmem. simpl. rewrite Hh. simpl.
    rewrite (proj2 (Z.eqb_neq _ _)) by lia.
    unfold set_subprocesses_attached. simpl. f_equal. lia.
Qed.

(** X7. Attach and detach are symmetric.  A detached process that
    attaches [n + 1] times holds the segment with the counter at [n + 1];
    [k <= n] detaches only lower the counter; the detach that brings it to
    zero releases the handle and the mapping with one call to
    [shmem_finalize], which is handed [is_shmem_empty] of the payload; and
    a further detach returns [DLB_ERR_NOSHMEM] and changes nothing.  None of
    this writes to the payload. *)
Theorem attach_detach_symmetry shmem_key m n k w :
  shm_handler w = false ->
  (k <= n)%nat ->
  let attach := fun w => snd (shmem_talp_ext__init shmem_key m w) in
  let detach := fun w => snd (shmem_talp_ext__finalize w) in
  let wa := Nat.iter (S n) attach w in
  let wk := Nat.iter k detach wa in
  let wd := Nat.iter (S n) detach wa in
  shm_handler wa = true
  /\ subprocesses_attached wa = Z.of_nat n + 1
  /\ shm wa = shm (open_shmem shmem_key m w)
  /\ shm_handler wk = true
  /\ subprocesses_attached wk = Z.of_nat n + 1 - Z.of_nat k
  /\ shm wk = shm wa
  /\ shmem_calls wk = shmem_calls wa
  /\ shm_handler wd = false
  /\ shdata wd = false
  /\ subprocesses_attached wd = 0
  /\ shm wd = shm wa
  /\ shmem_calls wd
     = Shmem_finalize (is_shmem_empty (shm wa)) :: shmem_calls wa
  /\ shmem_talp_ext__finalize wd = (DLB_ERR_NOSHMEM, wd).
Proof.
  intros Hh Hk attach detach wa wk wd.
  assert (wa = set_subprocesses_attached (Z.of_nat (S n))
                 (open_shmem shmem_key m w)) as Hwa
    by (by apply ext_init_iter).
  assert (shm_handler wa = true) as Hha
    by (rewrite Hwa; unfold open_shmem; by rewrite Hh).
  assert (subprocesses_attached wa = Z.of_nat n + 1) as Hca
    by (rewrite Hwa; simpl; lia).
  assert (wk = set_subprocesses_attached
                 (subprocesses_attached wa - Z.of_nat k) wa) as Hwk
    by (apply ext_finalize_iter; [done|lia]).
  assert (wd = snd (shmem_talp_ext__finalize
                      (set_subprocesses_attached 1 wa))) as Hwd.
  { unfold wd. rewrite Nat.iter_succ. fold detach. unfold detach at 1.
    do 2 f_equal. unfold detach. rewrite ext_finalize_iter by (done || lia).
    f_equal. lia. }
  split; [done|]. split; [done|]. split; [by rewrite Hwa|].
  split; [by rewrite Hwk|]. split; [rewrite Hwk; simpl; lia|].
  split; [by rewrite Hwk|]. split; [by rewrite Hwk|].
  rewrite Hwd. unfold shmem_talp_ext__finalize. simpl. rewrite Hha. simpl.
  repeat split; done.
Qed.

(** X8. [shmem_talp__finalize] detaches exactly when the process was
    attached once: then the handle and the mapping are released with one
    call to [shmem_finalize], and every further finalize, for any pid,
    returns [DLB_ERR_NOSHMEM] and changes nothing.  A process attached more
    than once stays attached, with the counter one lower and no call to
    the segment primitive. *)
Theorem finalize_detaches_last pid w :
  shm_handler w = true ->
  fst (shmem_talp__finalize pid w) = DLB_SUCCESS
  /\ subprocesses_attached (snd (shmem_talp__finalize pid w))
     = subprocesses_attached w - 1
  /\ (subprocesses_attached w = 1 ->
      shm_handler (snd (shmem_talp__finalize pid w)) = false
      /\ shdata (snd (shmem_talp__finalize pid w)) = false
      /\ shmem_calls (snd (shmem_talp__finalize pid w))
         = Shmem_finalize (is_shmem_empty (finalize_clear pid (shm w)))
             :: shmem_calls w
      /\ forall pid',
           shmem_talp__finalize pid' (snd (shmem_talp__finalize pid w))
           = (DLB_ERR_NOSHMEM, snd (shmem_talp__finalize pid w))
           /\ shmem_talp_ext__finalize (snd (shmem_talp__finalize pid w))
              = (DLB_ERR_NOSHMEM, snd (shmem_talp__finalize pid w)))
  /\ (subprocesses_attached w <> 1 ->
      shm_handler (snd (shmem_talp__finalize pid w)) = true
      /\ shdata (snd (shmem_talp__finalize pid w)) = shdata w
      /\ shmem_calls (snd (shmem_talp__finalize pid w)) = shmem_calls w).
Proof.
  intros Hh.
  assert (shmem_talp__finalize pid w
          = (DLB_SUCCESS, close_shmem (set_shm (finalize_clear pid) w))) as ->
    by (unfold shmem_talp__finalize; by rewrite Hh).
  cbn [fst snd].
  split; [done|]. split; [unfold close_shmem; simpl; by case_match|].
  split; intros Hc.
  - assert (close_shmem (set_shm (finalize_clear pid) w)
            = {| shm := finalize_clear pid (shm w);
                 shm_handler := false;
                 shdata := false;
                 max_regions := max_regions w;
                 subprocesses_attached := subprocesses_attached w - 1;
                 shmem_calls :=
                   Shmem_finalize (is_shmem_empty (finalize_clear pid (shm w)))
                     :: shmem_calls w |}) as ->
      by (unfold close_shmem; simpl; by rewrite Hc).
    repeat split; done.
  - assert (close_shmem (set_shm (finalize_clear pid) w)
            = set_subprocesses_attached (subprocesses_attached w - 1)
                (set_shm (finalize_clear pid) w)) as ->
      by (unfold close_shmem; simpl;
          by rewrite (proj2 (Z.eqb_neq _ _)) by lia).
    simpl. by rewrite Hh.
Qed.

(** X10. The outcomes of [shmem_talp__init].  It fails, with
    [DLB_ERR_INIT], exactly when the payload found at attach is
    initialised with a capacity other than the one of the process, and
    succeeds otherwise.  After a success the process is attached, the
    table is initialised and its stored capacity is the capacity of the
    process; a table found initialised is left exactly as found; a table
    found uninitialised is started at size zero, whatever its size field
    held, with its records untouched. *)
Theorem init_outcomes shmem_key shmem_size_multiplier w :
  let w1 := open_shmem shmem_key shmem_size_multiplier w in
  let r := shmem_talp__init shmem_key shmem_size_multiplier w in
  (fst r = DLB_ERR_INIT
   <-> sd_initialized (shm w1) = true
       /\ sd_max_regions (shm w1) <> max_regions w1)
  /\ (fst r = DLB_SUCCESS \/ fst r = DLB_ERR_INIT)
  /\ (fst r = DLB_SUCCESS ->
      shm_handler (snd r) = true
      /\ subprocesses_attached (snd r) = subprocesses_attached w1
      /\ max_regions (snd r) = max_regions w1
      /\ sd_initialized (shm (snd r)) = true
      /\ sd_max_regions (shm (snd r)) = max_regions (snd r)
      /\ sd_talp_region (shm (snd r)) = sd_talp_region (shm w1)
      /\ (sd_initialized (shm w1) = true -> snd r = w1)
      /\ (sd_initialized (shm w1) = false ->
          sd_num_regions (shm (snd r)) = 0)).
Proof.
  intros w1 r. unfold r, shmem_talp__init. fold w1.
  assert (shm_handler w1 = true) as Hh1.
  { unfold w1, open_shmem. by destruct (shm_handler w) eqn:E. }
  destruct (sd_initialized (shm w1)) eqn:Hi; simpl.
  - destruct (sd_max_regions (shm w1) =? max_regions w1) eqn:Hc; simpl.
    + apply Z.eqb_eq in Hc. split; [split; [done|by intros [_ ?]]|].
      split; [by left|]. intros _. by rewrite Hi.
    + apply Z.eqb_neq in Hc. split; [done|]. split; [by right|done].
  - split; [split; [done|by intros [? _]]|]. split; [by left|].
    intros _. done.
Qed.

(** ** Crash cleanup, twice *)

Lemma shdata_eq sd1 sd2 :
  sd_initialized sd1 = sd_initialized sd2 ->
  sd_max_regions sd1 = sd_max_regions sd2 ->
  sd_num_regions sd1 = sd_num_regions sd2 ->
  sd_talp_region sd1 = sd_talp_region sd2 ->
  sd1 = sd2.
Proof. destruct sd1, sd2. simpl. by intros -> -> -> ->. Qed.

Lemma clear_owned_idem pid lo n l :
  clear_owned pid lo n (clear_owned pid lo n l) = clear_owned pid lo n l.
Proof.
  apply list_eq. intros k. unfold clear_owned. rewrite !list_lookup_imap.
  destruct (l !! k) as [r|]; simpl; [|done]. f_equal.
  destruct (bool_decide (lo <= Z.of_nat k < lo + Z.of_nat n)); simpl; [|done].
  destruct (tr_pid r =? pid) eqn:E; simpl; [|by rewrite E].
  by case_match.
Qed.

Lemma finalize_clear_idem pid sd :
  finalize_clear pid (finalize_clear pid sd) = finalize_clear pid sd.
Proof.
  pose proof (finalize_clear_header pid sd) as (H1 & H2 & H3).
  pose proof (finalize_clear_header pid (finalize_clear pid sd))
    as (H4 & H5 & H6).
  apply shdata_eq; [congruence..|].
  rewrite (finalize_clear_regions pid (finalize_clear pid sd)).
  rewrite H3, finalize_clear_regions. apply clear_owned_idem.
Qed.

Lemma survivor_finalize_clear pid sd :
  survivor pid sd -> survivor pid (finalize_clear pid sd).
Proof.
  intros (j & Hj & Hne & Hpos).
  pose proof (finalize_clear_header pid sd) as (_ & _ & Hn).
  exists j. rewrite Hn, region_at_finalize_clear by lia.
  rewrite (proj2 (Z.eqb_neq _ _)), andb_false_r by done. done.
Qed.

Lemma memset_zero_idem size sd :
  memset_zero size (memset_zero size sd) = memset_zero size sd.
Proof.
  apply shdata_eq; try done. simpl.
  set (l := sd_talp_region sd). set (s := Z.to_nat size).
  destruct (decide (s <= length l)%nat) as [Hle|Hgt].
  - rewrite (Nat.min_l s (length l)) by lia.
    rewrite length_app, length_replicate, length_drop.
    rewrite (Nat.min_l s) by lia.
    rewrite drop_app_length' by (by rewrite length_replicate). done.
  - rewrite (Nat.min_r s (length l)) by lia.
    rewrite (drop_ge l) by lia. rewrite app_nil_r, length_replicate.
    rewrite Nat.min_r by lia.
    rewrite drop_ge by (rewrite length_replicate; lia).
    by rewrite app_nil_r.
Qed.

(** X11. Crash cleanup is idempotent: delivering the callback a second
    time for the same pid leaves the payload exactly as the first
    delivery left it. *)
Theorem cleanup_shmem_idempotent maxr sd pid :
  cleanup_shmem maxr (cleanup_shmem maxr sd pid) pid
  = cleanup_shmem maxr sd pid.
Proof.
  destruct (survivor_or_not pid sd) as [Hs|Hs].
  - rewrite (cleanup_shmem_survivor maxr sd) by done.
    rewrite cleanup_shmem_survivor by (by apply survivor_finalize_clear).
    apply finalize_clear_idem.
  - rewrite (cleanup_shmem_wipe maxr sd) by done.
    set (z := memset_zero _ _).
    assert (finalize_clear pid z = z) as Hz by done.
    rewrite cleanup_shmem_wipe by (intros j Hj; simpl in Hj; lia).
    rewrite Hz. apply memset_zero_idem.
Qed.

(** ** One record for a pair *)

Lemma mapped_run_op o w : mapped w -> mapped (run_op o w).
Proof.
  unfold mapped. intros Hm.
  destruct o as [pid avg name|rid m u|rid a|pid|pid]; simpl.
  - unfold shmem_talp__register.
    repeat (case_match; simpl; try done). by rewrite length_insert.
  - unfold shmem_talp__set_times.
    repeat (case_match; simpl; try done). by rewrite length_insert.
  - unfold shmem_talp__set_avg_cpus.
    repeat (case_match; simpl; try done). by rewrite length_insert.
  - unfold shmem_talp__finalize. case_match; simpl; [done|].
    rewrite shm_close_shmem. simpl.
    rewrite finalize_clear_regions, length_clear_owned.
    unfold close_shmem. by case_match.
  - destruct (survivor_or_not pid (shm w)) as [H|H].
    + rewrite cleanup_shmem_survivor by done.
      by rewrite finalize_clear_regions, length_clear_owned.
    + rewrite cleanup_shmem_wipe by done. simpl.
      rewrite length_app, length_replicate, length_drop.
      rewrite finalize_clear_regions, length_clear_owned. lia.
Qed.

Lemma unique_owned_same_keys sd sd' :
  sd_num_regions sd' = sd_num_regions sd ->
  (forall k, 0 <= k < sd_num_regions sd ->
     region_at sd' k = region_at sd k
     \/ tr_pid (region_at sd' k) = NOBODY
     \/ (tr_pid (region_at sd' k) = tr_pid (region_at sd k)
         /\ tr_name (region_at sd' k) = tr_name (region_at sd k))) ->
  unique_owned sd -> unique_owned sd'.
Proof.
  intros Hn Hk Hu i j Hi Hj Hp Hkey. rewrite Hn in Hi, Hj.
  assert (forall k, 0 <= k < sd_num_regions sd ->
            tr_pid (region_at sd' k) <> NOBODY ->
            slot_key (region_at sd' k) = slot_key (region_at sd k)) as Hsame.
  { intros k Hkr Hpk. destruct (Hk k Hkr) as [->|[?|[H1 H2]]]; [done|done|].
    unfold slot_key. by rewrite H1, H2. }
  assert (tr_pid (region_at sd' j) <> NOBODY) as Hpj.
  { unfold slot_key in Hkey. injection Hkey as Hkey _. by rewrite <- Hkey. }
  apply Hu; [done|done| |].
  - pose proof (Hsame i Hi Hp) as E. unfold slot_key in E.
    injection E as E _. by rewrite <- E.
  - by rewrite <- (Hsame i Hi Hp), <- (Hsame j Hj Hpj).
Qed.

Lemma setter_keeps_keys c w :
  sd_num_regions (shm (snd (run_counter_call c w))) = sd_num_regions (shm w)
  /\ forall k, 0 <= k < sd_num_regions (shm w) ->
       region_at (shm (snd (run_counter_call c w))) k = region_at (shm w) k
       \/ tr_pid (region_at (shm (snd (run_counter_call c w))) k) = NOBODY
       \/ (tr_pid (region_at (shm (snd (run_counter_call c w))) k)
            = tr_pid (region_at (shm w) k)
           /\ tr_name (region_at (shm (snd (run_counter_call c w))) k)
              = tr_name (region_at (shm w) k)).
Proof.
  destruct c as [rid|rid m u|rid a]; simpl; [by split; [|left]| |].
  - unfold shmem_talp__set_times.
    repeat (case_match; simpl; try (by split; [|left])).
    split; [done|]. intros k Hk. rewrite region_at_store by lia.
    case_decide as Hd; [|by left]. destruct Hd as [-> _]. right. right. done.
  - unfold shmem_talp__set_avg_cpus.
    repeat (case_match; simpl; try (by split; [|left])).
    split; [done|]. intros k Hk. rewrite region_at_store by lia.
    case_decide as Hd; [|by left]. destruct Hd as [-> _]. right. right. done.
Qed.

Lemma unique_owned_run_op o w :
  table_shape w -> mapped w ->
  unique_owned (shm w) -> unique_owned (shm (run_op o w)).
Proof.
  intros Hs Hmap Hu.
  destruct o as [pid avg name|rid m u|rid a|pid|pid]; simpl.
  - destruct (shm_handler w) eqn:Hh;
      [|unfold shmem_talp__register; by rewrite Hh].
    destruct (register_cases pid name w Hh (proj1 Hs)) as [[k Hk]|Hnone].
    { by rewrite (register_found _ avg _ _ _ Hk). }
    rewrite register_fresh by (done || apply Hs).
    destruct (sd_num_regions (shm w) <? max_regions w) eqn:Hlt; [|done].
    apply Z.ltb_lt in Hlt. simpl.
    set (n := sd_num_regions (shm w)).
    assert (n < Z.of_nat (length (sd_talp_region (shm w)))) as Hlen.
    { unfold mapped, shmem_talp__size in Hmap. rewrite Hmap.
      rewrite (proj2 (Z.ltb_lt _ _)) by (destruct Hs; lia).
      done. }
    assert (forall k, 0 <= k < n ->
              region_at (store_region n (new_region pid avg name)
                           (incr_num_regions (shm w))) k
              = region_at (shm w) k) as Hold.
    { intros k Hk. by rewrite region_at_store_ne by lia. }
    assert (region_at (store_region n (new_region pid avg name)
                         (incr_num_regions (shm w))) n
            = new_region pid avg name) as Hnew.
    { apply region_at_store_eq. simpl. destruct Hs. lia. }
    assert (forall k, 0 <= k < n ->
              slot_key (region_at (shm w) k)
              <> slot_key (new_region pid avg name)) as Hfresh.
    { intros k Hk Heq. specialize (Hnone k Hk).
      apply not_true_iff_false in Hnone. apply Hnone.
      apply region_matches_spec. unfold slot_key in Heq.
      injection Heq as -> ->. split; [done|].
      apply (name_key_new_region pid avg name). }
    intros i j Hi Hj Hp Hkey. simpl in Hi, Hj. fold n in Hi, Hj.
    destruct (decide (i = n)) as [->|Hin], (decide (j = n)) as [->|Hjn];
      [done| | |].
    + exfalso. rewrite Hnew, Hold in Hkey by lia.
      by apply (Hfresh j ltac:(lia)).
    + exfalso. rewrite Hnew, Hold in Hkey by lia.
      by apply (Hfresh i ltac:(lia)).
    + rewrite !Hold in Hkey by lia. rewrite Hold in Hp by lia.
      apply Hu; (done || lia).
  - destruct (setter_keeps_keys (Set_times rid m u) w) as [Hn Hk].
    by apply (unique_owned_same_keys (shm w)).
  - destruct (setter_keeps_keys (Set_avg_cpus rid a) w) as [Hn Hk].
    by apply (unique_owned_same_keys (shm w)).
  - unfold shmem_talp__finalize. case_match; simpl; [done|].
    rewrite shm_close_shmem. simpl.
    pose proof (finalize_clear_header pid (shm w)) as (_ & _ & Hn).
    apply (unique_owned_same_keys (shm w)); [done| |done].
    intros k Hk. rewrite region_at_finalize_clear by lia.
    case_match; [right; left; done | by left].
  - destruct (survivor_or_not pid (shm w)) as [H|H].
    + rewrite cleanup_shmem_survivor by done.
      pose proof (finalize_clear_header pid (shm w)) as (_ & _ & Hn).
      apply (unique_owned_same_keys (shm w)); [done| |done].
      intros k Hk. rewrite region_at_finalize_clear by lia.
      case_match; [right; left; done | by left].
    + rewrite cleanup_shmem_wipe by done.
      intros i j Hi. simpl in Hi. lia.
Qed.

Lemma unique_owned_run_ops os w :
  table_shape w -> mapped w ->
  unique_owned (shm w) -> unique_owned (shm (run_ops os w)).
Proof.
  revert w. induction os as [|o os IH]; intros w Hs Hmap Hu; [done|].
  simpl. apply IH;
    [by apply table_shape_run_op | by apply mapped_run_op
    | by apply unique_owned_run_op].
Qed.

(** X9. Registration never makes a duplicate.  On a table of the right
    shape whose mapping has the requested size, the property that no two
    owned slots of the dense prefix carry the same pid and name is kept by
    every operation that writes to the table, alone and in series; an
    empty table has it; and under it at most one slot answers to a pair
    whose pid is not [NOBODY]. *)
Theorem unique_owned_invariant o os w :
  table_shape w ->
  mapped w ->
  unique_owned (shm w) ->
  unique_owned (shm (run_op o w))
  /\ unique_owned (shm (run_ops os w))
  /\ (forall pid name i j,
        pid <> NOBODY ->
        0 <= i < sd_num_regions (shm w) ->
        0 <= j < sd_num_regions (shm w) ->
        region_matches (region_at (shm w) i) pid name = true ->
        region_matches (region_at (shm w) j) pid name = true ->
        i = j)
  /\ (forall sd, sd_num_regions sd <= 0 -> unique_owned sd).
Proof.
  intros Hs Hmap Hu.
  split; [by apply unique_owned_run_op|].
  split; [by apply unique_owned_run_ops|]. split.
  - intros pid name i j Hpid Hi Hj Hmi Hmj.
    apply region_matches_spec in Hmi as [Hpi Hni].
    apply region_matches_spec in Hmj as [Hpj Hnj].
    apply Hu; [done|done|by rewrite Hpi|].
    unfold slot_key. by rewrite Hpi, Hpj, Hni, Hnj.
  - intros sd Hn i j Hi. lia.
Qed.

(** ** Tombstones *)

(** X12. A cleared pair is new again.  Once the records of a pid other
    than [NOBODY] have been cleared, by [finalize] or by a crash cleanup
    that leaves a positive owner, the ids it held answer [DLB_ERR_NOENT]
    to the counter calls, [get_region] of any of its pairs returns
    [DLB_ERR_NOPROC], and registering such a pair again does not return
    the old id: it is given the first slot past the dense prefix, or
    [DLB_ERR_NOMEM] when the table is full. *)
Theorem cleared_pair_is_new_again pid avg_cpus name mpi_time useful_time
    w w' :
  pid <> NOBODY ->
  table_shape w ->
  shm_handler w' = true ->
  max_regions w' = max_regions w ->
  shm w' = finalize_clear pid (shm w) ->
  (forall j, 0 <= j < sd_num_regions (shm w) ->
     tr_pid (region_at (shm w) j) = pid ->
     shmem_talp__get_times j w' = (DLB_ERR_NOENT, None)
     /\ shmem_talp__set_times j mpi_time useful_time w' = (DLB_ERR_NOENT, w')
     /\ shmem_talp__set_avg_cpus j avg_cpus w' = (DLB_ERR_NOENT, w'))
  /\ shmem_talp__get_region pid name w' = (DLB_ERR_NOPROC, None)
  /\ fst (shmem_talp__register pid avg_cpus name w')
     = (if sd_num_regions (shm w) <? max_regions w
        then (DLB_SUCCESS, Some (sd_num_regions (shm w)))
        else (DLB_ERR_NOMEM, None))
  /\ (survivor pid (shm w) ->
      shm (crash_cleanup pid w) = finalize_clear pid (shm w)
      /\ max_regions (crash_cleanup pid w) = max_regions w
      /\ shm_handler (crash_cleanup pid w) = shm_handler w)
  /\ (shm_handler w = true ->
      shm (snd (shmem_talp__finalize pid w)) = finalize_clear pid (shm w)
      /\ max_regions (snd (shmem_talp__finalize pid w)) = max_regions w).
Proof.
  intros Hpid Hs Hh Hmax Hshm.
  pose proof (finalize_clear_header pid (shm w)) as (_ & _ & Hn).
  assert (forall j, 0 <= j < sd_num_regions (shm w) ->
            tr_pid (region_at (shm w') j) <> pid) as Hnot.
  { intros j Hj. rewrite Hshm, region_at_finalize_clear by lia.
    rewrite bool_decide_eq_true_2 by lia. simpl.
    destruct (tr_pid (region_at (shm w) j) =? pid) eqn:E; simpl;
      [done | by apply Z.eqb_neq]. }
  assert (unregistered pid name w') as Hnone.
  { intros j Hj. rewrite Hshm, Hn in Hj. apply not_true_iff_false.
    intros [Hp _]%region_matches_spec. by apply (Hnot j Hj). }
  split; [|split; [by apply get_region_none|split; [|split]]].
  - intros j Hj Hp.
    assert ((tr_pid (region_at (shm w') j) =? NOBODY) = true) as Hz.
    { rewrite Hshm, region_at_finalize_clear by lia.
      rewrite bool_decide_eq_true_2 by lia.
      by rewrite (proj2 (Z.eqb_eq _ pid) Hp). }
    unfold shmem_talp__get_times, shmem_talp__set_times,
      shmem_talp__set_avg_cpus.
    rewrite Hh, Hmax, Hz, Hshm, Hn. simpl.
    rewrite (proj2 (Z.leb_gt _ _)) by (destruct Hs; lia).
    rewrite (proj2 (Z.leb_gt _ _)) by lia.
    by rewrite (proj2 (Z.ltb_ge _ _)) by lia.
  - rewrite register_fresh by (done || rewrite Hshm, Hn; apply Hs).
    rewrite Hshm, Hn, Hmax. by case_match.
  - intros Hsurv. unfold crash_cleanup. simpl.
    by rewrite cleanup_shmem_survivor.
  - intros Hhw. unfold shmem_talp__finalize. rewrite Hhw. simpl.
    rewrite shm_close_shmem. simpl. split; [done|].
    unfold close_shmem. by case_match.
Qed.

(** ** Using what the listing returns *)

(** X13. Every entry of [get_regionlist(name)] can be used as it is.  On
    a table of the right shape the id of the entry is accepted by
    [get_times], which returns the two counters of the entry; and when no
    two owned slots carry the same pid and name, [get_region] of the pid
    of the entry and [name] returns the very entry. *)
Theorem regionlist_entries_usable max_len name w region_list e :
  shm_handler w = true ->
  table_shape w ->
  shmem_talp__get_regionlist max_len name w
  = (DLB_SUCCESS, Some region_list) ->
  e ∈ region_list ->
  shmem_talp__get_times (rl_region_id e) w
  = (DLB_SUCCESS, Some (rl_mpi_time e, rl_useful_time e))
  /\ rl_pid e <> NOBODY
  /\ 0 <= rl_region_id e < sd_num_regions (shm w)
  /\ (unique_owned (shm w) ->
      shmem_talp__get_region (rl_pid e) name w = (DLB_SUCCESS, Some e)).
Proof.
  intros Hh Hs Hcall He.
  unfold shmem_talp__get_regionlist in Hcall. rewrite Hh in Hcall.
  simpl in Hcall. injection Hcall as <-.
  rewrite qsort_perm, regionlist_loop_spec in He. simpl in He.
  apply elem_of_take in He as (k & He & _).
  apply list_elem_of_lookup_2, elem_of_matching_regions in He
    as (j & Hj & Hp & Hn & ->).
  simpl.
  assert (0 <= j < sd_num_regions (shm w)) as Hj' by lia.
  assert (registered_id j w) as Hrid by (destruct Hs; split; lia).
  split; [by apply get_times_success|]. split; [done|]. split; [done|].
  intros Hu.
  assert (region_matches (region_at (shm w) j)
            (tr_pid (region_at (shm w) j)) name = true) as Hm
    by (by apply region_matches_spec).
  destruct (register_cases (tr_pid (region_at (shm w) j)) name w Hh (proj1 Hs))
    as [[i Hi]|Hnone]; [|by rewrite Hnone in Hm].
  assert (i = j) as ->.
  { destruct Hi as (_ & Hir & Hmi & _).
    apply region_matches_spec in Hmi as [Hpi Hni].
    symmetry. apply Hu; [done|done|done|].
    unfold slot_key. by rewrite Hpi, Hni, Hn. }
  by rewrite (get_region_found _ _ _ _ Hi).
Qed.

(** ** The diagnostic dump *)

Lemma length_dec_digits fuel n acc :
  length (dec_digits fuel n acc) = (ndigits fuel n + length acc)%nat.
Proof.
  revert n acc. induction fuel as [|f IH]; intros n acc; simpl; [done|].
  destruct (n <? 10); simpl; [done|]. rewrite IH. simpl. lia.
Qed.

Lemma ndigits_fuel f1 f2 n :
  0 <= n < 2 ^ Z.of_nat (S f1) -> n < 2 ^ Z.of_nat (S f2) ->
  ndigits (S f1) n = ndigits (S f2) n.
Proof.
  revert f2 n. induction f1 as [|f1 IH]; intros f2 n H1 H2.
  - change (2 ^ Z.of_nat 1) with 2 in H1. cbn [ndigits].
    by rewrite (proj2 (Z.ltb_lt n 10)) by lia.
  - cbn [ndigits]. destruct (n <? 10) eqn:E; [done|]. apply Z.ltb_ge in E.
    rewrite (Nat2Z.inj_succ (S f1)), Z.pow_succ_r in H1 by lia.
    rewrite (Nat2Z.inj_succ f2), Z.pow_succ_r in H2 by lia.
    destruct f2 as [|f2]; [change (2 ^ Z.of_nat 0) with 1 in H2; lia|].
    f_equal. apply IH.
    + split; [apply Z.div_pos; lia|].
      apply Z.div_lt_upper_bound; lia.
    + apply Z.div_lt_upper_bound; lia.
Qed.

Lemma ndigits_mono f n m : 0 <= n <= m -> (ndigits f n <= ndigits f m)%nat.
Proof.
  revert n m. induction f as [|f IH]; intros n m H; simpl; [done|].
  destruct (n <? 10) eqn:En, (m <? 10) eqn:Em.
  - done.
  - apply le_n_S, Nat.le_0_l.
  - apply Z.ltb_ge in En. apply Z.ltb_lt in Em. lia.
  - apply Z.ltb_ge in En. apply le_n_S, IH. split; [apply Z.div_pos; lia|].
    apply Z.div_le_mono; lia.
Qed.

Lemma log2_fuel n : 0 <= n -> n < 2 ^ Z.of_nat (S (Z.to_nat (Z.log2 n))).
Proof.
  intros Hn. rewrite Nat2Z.inj_succ, Z2Nat.id by apply Z.log2_nonneg.
  destruct (decide (n = 0)) as [->|Hne]; [done|].
  apply Z.log2_spec. lia.
Qed.

Lemma length_fmt_d_nonneg n :
  0 <= n -> length (fmt_d n) = ndigits (S (Z.to_nat (Z.log2 n))) n.
Proof.
  intros Hn. unfold fmt_d. rewrite (proj2 (Z.ltb_ge _ _)) by lia.
  rewrite length_dec_digits. simpl. lia.
Qed.

(** A larger number does not print shorter. *)
Lemma length_fmt_d_mono n m :
  0 <= n <= m -> (length (fmt_d n) <= length (fmt_d m))%nat.
Proof.
  intros H. rewrite !length_fmt_d_nonneg by lia.
  rewrite (ndigits_fuel _ (Z.to_nat (Z.log2 m)) n).
  - apply ndigits_mono. lia.
  - split; [lia | apply log2_fuel; lia].
  - eapply Z.le_lt_trans; [apply H | apply log2_fuel; lia].
Qed.

Lemma length_pad_fits width s :
  Z.of_nat (length s) <= width -> length (pad width s) = Z.to_nat width.
Proof.
  intros H. unfold pad. rewrite (proj2 (Z.ltb_ge _ _)) by lia.
  rewrite length_app, length_replicate. lia.
Qed.

Lemma length_info_line w1 w2 w3 w4 f1 f2 f3 f4 :
  Z.of_nat (length f1) <= w1 -> Z.of_nat (length f2) <= w2 ->
  Z.of_nat (length f3) <= w3 -> Z.of_nat (length f4) <= w4 ->
  length (info_line w1 w2 w3 w4 f1 f2 f3 f4)
  = Nat.min (MAX_LINE_LEN - 1) (Z.to_nat (15 + w1 + w2 + w3 + w4)).
Proof.
  intros H1 H2 H3 H4. unfold info_line.
  rewrite length_take, !length_app, !length_pad_fits by done.
  simpl length. lia.
Qed.

Lemma widths_loop_spec copy i n c :
  let c' := widths_loop copy i n c in
  (max_pid c <= max_pid c' /\ max_name c <= max_name c'
   /\ max_mpi c <= max_mpi c' /\ max_useful c <= max_useful c')
  /\ forall j, i <= j < i + Z.of_nat n ->
       tr_pid (region_at copy j) <> NOBODY ->
       tr_pid (region_at copy j) <= max_pid c'
       /\ Z.of_nat (strlen (tr_name (region_at copy j))) <= max_name c'
       /\ Z.of_nat (length (fmt_d (tr_mpi_time (region_at copy j))))
          <= max_mpi c'
       /\ Z.of_nat (length (fmt_d (tr_useful_time (region_at copy j))))
          <= max_useful c'.
Proof.
  revert i c. induction n as [|n IH]; intros i c; simpl.
  - split; [lia | intros; lia].
  - match goal with |- context [widths_loop copy (i + 1) n ?x] =>
      set (c1 := x) end.
    destruct (IH (i + 1) c1) as [Hm Hj].
    assert (max_pid c <= max_pid c1 /\ max_name c <= max_name c1
            /\ max_mpi c <= max_mpi c1 /\ max_useful c <= max_useful c1)
      as Hc.
    { unfold c1. case_match; simpl; lia. }
    split; [lia|]. intros j Hjr Hp.
    destruct (decide (j = i)) as [->|Hne]; [|apply Hj; [lia|done]].
    assert (tr_pid (region_at copy i) <= max_pid c1
            /\ Z.of_nat (strlen (tr_name (region_at copy i))) <= max_name c1
            /\ Z.of_nat (length (fmt_d (tr_mpi_time (region_at copy i))))
               <= max_mpi c1
            /\ Z.of_nat (length (fmt_d (tr_useful_time (region_at copy i))))
               <= max_useful c1) as Hi.
    { unfold c1. rewrite (proj2 (Z.eqb_neq _ _)) by done. simpl. lia. }
    lia.
Qed.

Lemma elem_of_lines_loop copy d c i n line :
  line ∈ lines_loop copy d c i n ->
  exists j, i <= j < i + Z.of_nat n
    /\ tr_pid (region_at copy j) <> NOBODY
    /\ line = info_line d (max_name c) (max_mpi c) (max_useful c)
                (fmt_d (tr_pid (region_at copy j)))
                (c_str (tr_name (region_at copy j)))
                (fmt_d (tr_mpi_time (region_at copy j)))
                (fmt_d (tr_useful_time (region_at copy j))).
Proof.
  revert i. induction n as [|n IH]; intros i; simpl.
  - by intros ?%elem_of_nil.
  - intros [H|H]%elem_of_app.
    + destruct (tr_pid (region_at copy i) =? NOBODY) eqn:E; simpl in H;
        [by apply elem_of_nil in H|].
      apply list_elem_of_singleton in H. exists i.
      split; [lia|]. split; [by apply Z.eqb_neq | done].
    + destruct (IH _ H) as (j & Hj & Hrest). exists j. split; [lia|done].
Qed.

Lemma lines_loop_nil copy d c i n :
  lines_loop copy d c i n = []
  <-> forall j, i <= j < i + Z.of_nat n -> tr_pid (region_at copy j) = NOBODY.
Proof.
  revert i. induction n as [|n IH]; intros i; simpl.
  - split; [intros; lia | done].
  - destruct (tr_pid (region_at copy i) =? NOBODY) eqn:E; simpl.
    + apply Z.eqb_eq in E. rewrite IH. split; intros H j Hj.
      * destruct (decide (j = i)) as [->|]; [done | apply H; lia].
      * apply H. lia.
    + apply Z.eqb_neq in E. split; [done|]. intros H. exfalso.
      apply E, H. lia.
Qed.

Lemma length_lines_loop copy d c i n :
  (length (lines_loop copy d c i n) <= n)%nat.
Proof.
  revert i. induction n as [|n IH]; intros i; simpl; [done|].
  rewrite length_app. specialize (IH (i + 1)). case_match; simpl; lia.
Qed.

Lemma elem_of_owned_slots sd i n j :
  j ∈ owned_slots sd i n
  <-> i <= j < i + Z.of_nat n /\ tr_pid (region_at sd j) <> NOBODY.
Proof.
  revert i. induction n as [|n IH]; intros i; simpl.
  - split; [by intros ?%elem_of_nil | lia].
  - rewrite elem_of_app, IH.
    destruct (tr_pid (region_at sd i) =? NOBODY) eqn:E.
    + apply Z.eqb_eq in E. split.
      * intros [H|[H1 H2]]; [by apply elem_of_nil in H|]. split; [lia|done].
      * intros [H1 H2]. right. split; [|done].
        destruct (decide (j = i)) as [->|]; [done|lia].
    + apply Z.eqb_neq in E. rewrite list_elem_of_singleton. split.
      * intros [->|[H1 H2]]; (split; [lia|done]).
      * intros [H1 H2].
        destruct (decide (j = i)) as [->|]; [by left|]. right.
        split; [lia|done].
Qed.

Lemma owned_slots_sorted sd i n : StronglySorted Z.lt (owned_slots sd i n).
Proof.
  revert i. induction n as [|n IH]; intros i; simpl; [constructor|].
  destruct (tr_pid (region_at sd i) =? NOBODY); simpl; [apply IH|].
  constructor; [apply IH|]. apply Forall_forall. intros j Hj.
  apply elem_of_owned_slots in Hj. lia.
Qed.

(** The second loop writes one line for each slot with an owner, in
    table order. *)
Lemma lines_loop_rows copy d c i n :
  lines_loop copy d c i n
  = map (fun j =>
           info_line d (max_name c) (max_mpi c) (max_useful c)
             (fmt_d (tr_pid (region_at copy j)))
             (c_str (tr_name (region_at copy j)))
             (fmt_d (tr_mpi_time (region_at copy j)))
             (fmt_d (tr_useful_time (region_at copy j))))
        (owned_slots copy i n).
Proof.
  revert i. induction n as [|n IH]; intros i; simpl; [done|].
  rewrite map_app, IH.
  by destruct (tr_pid (region_at copy i) =? NOBODY).
Qed.

(** Each width the first loop arrives at is the one it started from or
    the value of an owned slot. *)
Lemma widths_loop_attained copy i n c :
  let c' := widths_loop copy i n c in
  (max_pid c' = max_pid c
   \/ exists j, j ∈ owned_slots copy i n
        /\ max_pid c' = tr_pid (region_at copy j))
  /\ (max_name c' = max_name c
      \/ exists j, j ∈ owned_slots copy i n
           /\ max_name c' = Z.of_nat (strlen (tr_name (region_at copy j))))
  /\ (max_mpi c' = max_mpi c
      \/ exists j, j ∈ owned_slots copy i n
           /\ max_mpi c'
              = Z.of_nat (length (fmt_d (tr_mpi_time (region_at copy j)))))
  /\ (max_useful c' = max_useful c
      \/ exists j, j ∈ owned_slots copy i n
           /\ max_useful c'
              = Z.of_nat (length (fmt_d (tr_useful_time (region_at copy j))))).
Proof.
  revert i c. induction n as [|n IH]; intros i c; simpl.
  - repeat split; by left.
  - match goal with |- context [widths_loop copy (i + 1) n ?x] =>
      set (c1 := x) end.
    destruct (IH (i + 1) c1) as (H1 & H2 & H3 & H4).
    destruct (tr_pid (region_at copy i) =? NOBODY) eqn:E; simpl in c1.
    + simpl. done.
    + assert (forall (a b x : Z) (P : Z -> Prop),
                (x = Z.max a b
                 \/ exists j, j ∈ owned_slots copy (i + 1) n /\ P j) ->
                (forall j, P j -> j = j) ->
                True) as _ by done.
      repeat split.
      * destruct H1 as [H1|(j & Hj & H1)].
        -- rewrite H1. simpl.
           destruct (Z.max_spec (tr_pid (region_at copy i)) (max_pid c))
             as [[_ ->]|[_ ->]]; [by left|].
           right. exists i. split; [apply list_elem_of_here|done].
        -- right. exists j. split; [by apply list_elem_of_further|done].
      * destruct H2 as [H2|(j & Hj & H2)].
        -- rewrite H2. simpl.
           destruct (Z.max_spec
                       (Z.of_nat (strlen (tr_name (region_at copy i))))
                       (max_name c)) as [[_ ->]|[_ ->]]; [by left|].
           right. exists i. split; [apply list_elem_of_here|done].
        -- right. exists j. split; [by apply list_elem_of_further|done].
      * destruct H3 as [H3|(j & Hj & H3)].
        -- rewrite H3. simpl.
           destruct (Z.max_spec
                       (Z.of_nat
                          (length (fmt_d (tr_mpi_time (region_at copy i)))))
                       (max_mpi c)) as [[_ ->]|[_ ->]]; [by left|].
           right. exists i. split; [apply list_elem_of_here|done].
        -- right. exists j. split; [by apply list_elem_of_further|done].
      * destruct H4 as [H4|(j & Hj & H4)].
        -- rewrite H4. simpl.
           destruct (Z.max_spec
                       (Z.of_nat
                          (length
                             (fmt_d (tr_useful_time (region_at copy i)))))
                       (max_useful c)) as [[_ ->]|[_ ->]]; [by left|].
           right. exists i. split; [apply list_elem_of_here|done].
        -- right. exists j. split; [by apply list_elem_of_further|done].
Qed.

(** X15. The text of the dump.  Nothing is emitted exactly when no slot
    of the dense prefix of the copy has an owner.  What is emitted has
    exactly one line for each slot of the dense prefix with an owner, in
    table order, and none for a cleared slot: the line of a slot shows
    its owner, its name and its two times, each in its column.  The pid
    column is as wide as the decimal text of the largest of 111 and the
    owners; the name and time columns are as wide as the longest of
    their title and their entries.  The header line shows the four
    titles in the same columns; and when no owner is negative, every
    line has the length of the header line, so that the columns are
    aligned. *)
Theorem print_info_text_spec copy :
  (print_info_text copy = None <-> is_shmem_empty copy = true)
  /\ forall header lines,
       print_info_text copy = Some (header, lines) ->
       lines <> []
       /\ Z.of_nat (length lines) <= Z.max 0 (sd_num_regions copy)
       /\ ((forall j, 0 <= j < sd_num_regions copy ->
              0 <= tr_pid (region_at copy j)) ->
           Forall (fun line => length line = length header) lines)
       /\ exists slots widest_pid name_width mpi_width useful_width,
            StronglySorted Z.lt slots
            /\ (forall j, j ∈ slots
                   <-> 0 <= j < sd_num_regions copy
                       /\ tr_pid (region_at copy j) <> NOBODY)
            /\ column_max 111 (fun j => tr_pid (region_at copy j)) slots
                 widest_pid
            /\ column_max 4
                 (fun j => Z.of_nat (strlen (tr_name (region_at copy j))))
                 slots name_width
            /\ column_max 8
                 (fun j =>
                    Z.of_nat
                      (length (fmt_d (tr_mpi_time (region_at copy j)))))
                 slots mpi_width
            /\ column_max 11
                 (fun j =>
                    Z.of_nat
                      (length (fmt_d (tr_useful_time (region_at copy j)))))
                 slots useful_width
            /\ header
               = info_line (Z.of_nat (length (fmt_d widest_pid)))
                   name_width mpi_width useful_width
                   (list_ascii_of_string "PID")
                   (list_ascii_of_string "Name")
                   (list_ascii_of_string "MPI time")
                   (list_ascii_of_string "Useful time")
            /\ lines
               = map (fun j =>
                        info_line (Z.of_nat (length (fmt_d widest_pid)))
                          name_width mpi_width useful_width
                          (fmt_d (tr_pid (region_at copy j)))
                          (c_str (tr_name (region_at copy j)))
                          (fmt_d (tr_mpi_time (region_at copy j)))
                          (fmt_d (tr_useful_time (region_at copy j))))
                   slots
            /\ length lines = length slots.
Proof.
  unfold print_info_text.
  set (n := Z.to_nat (sd_num_regions copy)).
  set (c := widths_loop copy 0 n _).
  set (d := Z.of_nat (length (fmt_d (max_pid c)))).
  destruct (lines_loop copy d c 0 n) as [|l0 ls] eqn:El.
  - split; [|done]. split; [|done]. intros _.
    unfold is_shmem_empty. fold n. apply is_shmem_empty_loop_true.
    by apply (lines_loop_nil copy d c 0 n).
  - split.
    { split; [done|]. intros He. exfalso.
      assert (lines_loop copy d c 0 n = []) as Hnil; [|by rewrite Hnil in El].
      apply lines_loop_nil. unfold is_shmem_empty in He. fold n in He.
      by apply is_shmem_empty_loop_iff. }
    intros header lines [= <- <-]. split; [done|]. split.
    { rewrite <- El. pose proof (length_lines_loop copy d c 0 n). lia. }
    destruct (widths_loop_spec copy 0 n
                {| max_pid := 111; max_name := 4; max_mpi := 8;
                   max_useful := 11 |}) as [(Hp & Hn & Hm & Hu) Hj].
    fold c in Hp, Hn, Hm, Hu, Hj. simpl in Hp, Hn, Hm, Hu.
    split.
    { intros Hpos.
      assert (3 <= d) as Hd.
      { unfold d.
        pose proof (length_fmt_d_mono 111 (max_pid c) ltac:(lia)) as H.
        change (length (fmt_d 111)) with 3%nat in H. lia. }
      rewrite length_info_line by (simpl; lia).
      rewrite <- El. apply Forall_forall. intros line Hline.
      apply elem_of_lines_loop in Hline as (j & Hjr & Hlive & ->).
      destruct (Hj j Hjr Hlive) as (H1 & H2 & H3 & H4).
      apply length_info_line; try done.
      unfold d. specialize (Hpos j ltac:(lia)).
      pose proof (length_fmt_d_mono (tr_pid (region_at copy j)) (max_pid c)
                    ltac:(lia)). lia. }
    destruct (widths_loop_attained copy 0 n
                {| max_pid := 111; max_name := 4; max_mpi := 8;
                   max_useful := 11 |}) as (Ap & An & Am & Au).
    fold c in Ap, An, Am, Au. simpl in Ap, An, Am, Au.
    assert (forall j, j ∈ owned_slots copy 0 n
              <-> 0 <= j < sd_num_regions copy
                  /\ tr_pid (region_at copy j) <> NOBODY) as Hslots.
    { intros j. rewrite elem_of_owned_slots. unfold n.
      split; intros [H1 H2]; (split; [lia|done]). }
    assert (forall j, j ∈ owned_slots copy 0 n ->
              tr_pid (region_at copy j) <= max_pid c
              /\ Z.of_nat (strlen (tr_name (region_at copy j))) <= max_name c
              /\ Z.of_nat (length (fmt_d (tr_mpi_time (region_at copy j))))
                 <= max_mpi c
              /\ Z.of_nat
                   (length (fmt_d (tr_useful_time (region_at copy j))))
                 <= max_useful c) as Hle.
    { intros j [Hjr Hlive]%elem_of_owned_slots. by apply Hj. }
    exists (owned_slots copy 0 n), (max_pid c), (max_name c), (max_mpi c),
      (max_useful c).
    split; [apply owned_slots_sorted|]. split; [done|].
    split; [split; [done|split; [intros j Hin; by apply Hle | done]]|].
    split; [split; [done|split; [intros j Hin; by apply Hle | done]]|].
    split; [split; [done|split; [intros j Hin; by apply Hle | done]]|].
    split; [split; [done|split; [intros j Hin; by apply Hle | done]]|].
    split; [done|]. rewrite <- El. split; [apply lines_loop_rows|].
    by rewrite lines_loop_rows, length_map.
Qed.

Lemma region_at_memcpy size sd j :
  0 <= j < size -> region_at (memcpy_shdata size sd) j = region_at sd j.
Proof.
  intros Hj. unfold region_at, memcpy_shdata. simpl.
  by rewrite lookup_take_lt by lia.
Qed.

Lemma widths_loop_ext copy copy' i n c :
  (forall j, i <= j < i + Z.of_nat n -> region_at copy j = region_at copy' j) ->
  widths_loop copy i n c = widths_loop copy' i n c.
Proof.
  revert i c. induction n as [|n IH]; intros i c H; simpl; [done|].
  rewrite (H i) by lia. apply IH. intros j Hj. apply H. lia.
Qed.

Lemma lines_loop_ext copy copy' d c i n :
  (forall j, i <= j < i + Z.of_nat n -> region_at copy j = region_at copy' j) ->
  lines_loop copy d c i n = lines_loop copy' d c i n.
Proof.
  revert i. induction n as [|n IH]; intros i H; simpl; [done|].
  rewrite (H i) by lia. f_equal. apply IH. intros j Hj. apply H. lia.
Qed.

(** The text depends on the dense prefix only, and the copy holds it
    when the prefix lies within the bytes copied. *)
Lemma print_info_text_memcpy size sd :
  sd_num_regions sd <= size ->
  print_info_text (memcpy_shdata size sd) = print_info_text sd.
Proof.
  intros Hn. unfold print_info_text.
  change (sd_num_regions (memcpy_shdata size sd)) with (sd_num_regions sd).
  assert (forall j, 0 <= j < 0 + Z.of_nat (Z.to_nat (sd_num_regions sd)) ->
            region_at (memcpy_shdata size sd) j = region_at sd j) as Hsame.
  { intros j Hj. apply region_at_memcpy. lia. }
  rewrite (widths_loop_ext _ sd) by done.
  by rewrite (lines_loop_ext _ sd) by done.
Qed.

(** X14. [shmem_talp__print_info] leaves the attachment as it found it
    and never writes to the payload.  Called by an attached process it
    changes nothing.  Called by a detached process it attaches for the
    duration of the call: afterwards the handle and the mapping are
    released again and the counter is zero, with one [shmem_init] and one
    [shmem_finalize] made, while the static capacity keeps the value the
    attach computed: the product of the system size and the multiplier
    as an [int] holds it, wrapped to 32 bits.  In both cases the text is that of the attached
    payload whenever the dense prefix lies within the bytes copied. *)
Theorem print_info_attach_state shmem_key shmem_size_multiplier w :
  let r := shmem_talp__print_info shmem_key shmem_size_multiplier w in
  let w1 := open_shmem shmem_key shmem_size_multiplier w in
  (shm_handler w = true ->
   snd r = w
   /\ (sd_num_regions (shm w) <= shmem_talp__size (max_regions w) ->
       fst r = print_info_text (shm w)))
  /\ (shm_handler w = false ->
      shm_handler (snd r) = false
      /\ shdata (snd r) = false
      /\ subprocesses_attached (snd r) = 0
      /\ max_regions (snd r)
         = wrap_int (mu_get_system_size * shmem_size_multiplier)
      /\ shm (snd r) = shm w1
      /\ shmem_calls (snd r)
         = Shmem_finalize (is_shmem_empty (shm w1))
             :: Shmem_init shmem_key
                  (shmem_talp__size
                     (wrap_int
                        (mu_get_system_size * shmem_size_multiplier)))
             :: shmem_calls w
      /\ (sd_num_regions (shm w1) <= shmem_talp__size (max_regions w1) ->
          fst r = print_info_text (shm w1))).
Proof.
  intros r w1. unfold r, shmem_talp__print_info.
  split; intros Hh; rewrite Hh; simpl.
  - split; [done|]. apply print_info_text_memcpy.
  - unfold shmem_talp_ext__finalize, shmem_talp_ext__init. cbn [snd].
    fold w1.
    assert (shm_handler w1 = true) as Hh1
      by (unfold w1, open_shmem; by rewrite Hh).
    assert (subprocesses_attached w1 = 1) as Hc1
      by (unfold w1, open_shmem; by rewrite Hh).
    rewrite Hh1. simpl. unfold close_shmem. simpl. rewrite Hc1. simpl.
    repeat split; try (unfold w1, open_shmem; by rewrite Hh).
    apply print_info_text_memcpy.
Qed.

(** ** Long names *)

Lemma length_snprintf_s dst size src :
  length dst = size -> length (snprintf_s dst size src) = size.
Proof.
  intros Hd. unfold snprintf_s. destruct size as [|m]; [done|].
  cbn zeta. rewrite length_app, length_drop, !length_app, length_take.
  simpl. lia.
Qed.

Lemma region_matches_same_key r pid name name' :
  name_key name' = name_key name ->
  region_matches r pid name' = region_matches r pid name.
Proof.
  intros Hk. apply eq_true_iff_eq. rewrite !region_matches_spec.
  by rewrite Hk.
Qed.

(** X16. Names are truncated, not rejected.  The record of a pair
    registered with success holds, in a buffer of [DLB_MONITOR_NAME_MAX]
    characters, the first [DLB_MONITOR_NAME_MAX - 1] characters of the
    name; and a name that agrees with it on those characters is the same
    region: registering it returns the same id with [DLB_NOUPDT], and
    [get_region] finds the record under it. *)
Theorem register_truncates_name pid avg_cpus name w i w1 :
  mapped w ->
  0 <= sd_num_regions (shm w) ->
  shmem_talp__register pid avg_cpus name w = (DLB_SUCCESS, Some i, w1) ->
  length (tr_name (region_at (shm w1) i)) = name_max
  /\ c_str (tr_name (region_at (shm w1) i)) = take (name_max - 1) (c_str name)
  /\ forall name' avg_cpus',
       take (name_max - 1) (c_str name') = take (name_max - 1) (c_str name) ->
       shmem_talp__register pid avg_cpus' name' w1 = (DLB_NOUPDT, Some i, w1)
       /\ exists e, shmem_talp__get_region pid name' w1 = (DLB_SUCCESS, Some e)
                    /\ rl_region_id e = i.
Proof.
  intros Hmap Hn Hreg.
  destruct (shm_handler w) eqn:Hh;
    [|unfold shmem_talp__register in Hreg; by rewrite Hh in Hreg].
  destruct (register_cases pid name w Hh Hn) as [[k Hk]|Hnone].
  { by rewrite (register_found _ avg_cpus _ _ _ Hk) in Hreg. }
  rewrite register_fresh in Hreg by done.
  destruct (sd_num_regions (shm w) <? max_regions w) eqn:Hlt; [|done].
  injection Hreg as <- <-. apply Z.ltb_lt in Hlt.
  pose proof (registered_at_fresh pid avg_cpus name w Hmap Hh ltac:(lia) Hnone)
    as Hr.
  assert (sd_num_regions (shm w)
          < Z.of_nat (length (sd_talp_region (shm w)))) as Hlen.
  { unfold mapped, shmem_talp__size in Hmap. rewrite Hmap.
    rewrite (proj2 (Z.ltb_lt _ _)) by lia. lia. }
  cbn [shm set_shm].
  rewrite region_at_store_eq by (simpl; lia). simpl.
  split; [apply length_snprintf_s, length_replicate|].
  split; [apply c_str_snprintf, name_max_pos|].
  intros name' avg_cpus' Hkey.
  assert (registered_at pid name' (sd_num_regions (shm w))
            (set_shm (fun sd =>
               store_region (sd_num_regions (shm w))
                 (new_region pid avg_cpus name) (incr_num_regions sd)) w))
    as Hr'.
  { destruct Hr as (H1 & H2 & H3 & H4). split; [done|]. split; [done|].
    split.
    - by rewrite (region_matches_same_key _ _ name name').
    - intros j Hj. rewrite (region_matches_same_key _ _ name name') by done.
      by apply H4. }
  split; [by apply register_found|].
  eexists. split; [by apply get_region_found|]. done.
Qed.

End Registry.

(** * Worked instances

    A node of four CPUs, the name buffer of 128 characters that DLB
    declares, and a segment primitive that finds no dead process at attach
    and hands over the payload as it is. *)

Definition NAME_MAX : positive := 128.

Definition SYSTEM_SIZE : Z := 4.

Definition shmem_attach (size : Z) (cleanup_fn : shdata_t -> Z -> shdata_t)
  (sd : shdata_t) : shdata_t := sd.

Definition str (s : string) : list ascii := list_ascii_of_string s.

(** A freshly created segment of [n] records: all zero. *)
Definition blank_segment (n : nat) : shdata_t :=
  {| sd_initialized := false;
     sd_max_regions := 0;
     sd_num_regions := 0;
     sd_talp_region := replicate n (zero_region NAME_MAX) |}.

(** A process before its first attach. *)
Definition detached (sd : shdata_t) : world :=
  {| shm := sd;
     shm_handler := false;
     shdata := false;
     max_regions := 0;
     subprocesses_attached := 0;
     shmem_calls := [] |}.

Definition init (w : world) : world :=
  snd (shmem_talp__init NAME_MAX SYSTEM_SIZE shmem_attach (str "key") 1 w).

Definition register (pid : Z) (name : string) (w : world) : world :=
  snd (shmem_talp__register NAME_MAX pid 1065353216 (str name) w).

(** The first attacher, after [shmem_talp__init]: capacity 4, size 0. *)
Definition attached : world := init (detached (blank_segment 4)).

(** Pid 5 has registered "R1", the only record. *)
Definition only_R1 : world := register 5 "R1" attached.

(** Pids 5 and 6 have one record each, and pid 5 has been found dead:
    slot 0 is a tombstone, the size is still 2. *)
Definition tombstone : world :=
  crash_cleanup NAME_MAX SYSTEM_SIZE 5
    (register 6 "R2" (register 5 "R1" attached)).

(** Three processes have registered "X". *)
Definition three_X : world :=
  register 20 "X" (register 10 "X" (register 30 "X" attached)).

(** The process has attached twice and registered "R1" for pid 5. *)
Definition twice_R1 : world := register 5 "R1" (init attached).

(** A segment that a process of capacity 8 has initialised. *)
Definition foreign : world := detached (first_init 8 (blank_segment 8)).

Ltac compute_eq := vm_compute; reflexivity.

(** A closed goal settled by evaluation, whatever the context holds. *)
Ltac by_evaluation :=
  repeat match goal with H : _ |- _ => clear H end; vm_compute; done.

Example attached_state :
  shm_handler attached = true
  /\ max_regions attached = 4
  /\ subprocesses_attached attached = 1
  /\ sd_initialized (shm attached) = true
  /\ sd_max_regions (shm attached) = 4
  /\ sd_num_regions (shm attached) = 0.
Proof. repeat split; compute_eq. Qed.


(** Four distinct pairs fill the table of capacity 4. *)
Definition four_requests : list request :=
  [(5, 0, str "R1"); (5, 0, str "R2"); (6, 0, str "R1"); (7, 0, str "R3")].

Definition full : world := register_all NAME_MAX four_requests attached.

(** Reasoning slot by slot over a dense prefix of known size. *)
Ltac by_slot j Hj n :=
  match type of Hj with
  | _ <= _ < ?e => assert (e = n) as Hsize by compute_eq;
                   rewrite Hsize in Hj; clear Hsize
  end;
  assert (Z.to_nat j < Z.to_nat n)%nat as Hlt by lia;
  rewrite <- (Z2Nat.id j) by lia;
  destruct (Z.to_nat j) as [|[|[|[|?]]]]; try (exfalso; simpl in Hlt; lia);
  clear Hlt Hj.

Lemma register_capacity_bound_witness :
  shmem_talp__register NAME_MAX 9 0 (str "Z") full
  = (DLB_ERR_NOMEM, None, full)
  /\ register_results NAME_MAX (four_requests ++ [(9, 0, str "Z")]) attached
     = [(DLB_SUCCESS, Some 0); (DLB_SUCCESS, Some 1); (DLB_SUCCESS, Some 2);
        (DLB_SUCCESS, Some 3); (DLB_ERR_NOMEM, None)]
  /\ register_all NAME_MAX (four_requests ++ [(9, 0, str "Z")]) attached
     = register_all NAME_MAX four_requests attached.
Proof.
  destruct (register_capacity_bound NAME_MAX SYSTEM_SIZE 9 0 (str "Z") full
              four_requests (9, 0, str "Z") attached) as [HA HB].
  split.
  - apply HA; [compute_eq | compute_eq |].
    intros j Hj. by_slot j Hj 4; compute_eq.
  - apply HB; [compute_eq | compute_eq | compute_eq | compute_eq |].
    apply (bool_decide_unpack (NoDup _)). compute_eq.
Defined.


(** The extreme values of [int64_t] make the round trip as well. *)
Example set_get_times_extremes :
  shmem_talp__get_times NAME_MAX 0
    (snd (shmem_talp__set_times NAME_MAX 0 (- 2 ^ 63) (2 ^ 63 - 1) only_R1))
  = (DLB_SUCCESS, Some (- 2 ^ 63, 2 ^ 63 - 1)).
Proof. compute_eq. Qed.

(** C4 as stated fails: on one attached table of capacity 4 and size 2
    whose slot 0 is vacated, a vacated slot, an id at or above the size
    and a negative id are three of the listed conditions and are all
    reported with the one code [DLB_ERR_NOENT]; and the two ways of lying
    outside [0, capacity) are reported with two codes. *)
Lemma counter_codes_shared :
  shm_handler tombstone = true
  /\ max_regions tombstone = 4
  /\ sd_num_regions (shm tombstone) = 2
  /\ tr_pid (region_at NAME_MAX (shm tombstone) 0) = NOBODY
  /\ fst (shmem_talp__get_times NAME_MAX 0 tombstone) = DLB_ERR_NOENT
  /\ fst (shmem_talp__get_times NAME_MAX 2 tombstone) = DLB_ERR_NOENT
  /\ fst (shmem_talp__get_times NAME_MAX (-1) tombstone) = DLB_ERR_NOENT
  /\ fst (shmem_talp__get_times NAME_MAX 4 tombstone) = DLB_ERR_NOMEM
  /\ fst (shmem_talp__set_times NAME_MAX 0 1 1 tombstone) = DLB_ERR_NOENT
  /\ fst (shmem_talp__set_times NAME_MAX 2 1 1 tombstone) = DLB_ERR_NOENT.
Proof. repeat split; compute_eq. Qed.

Lemma crash_cleanup_witness :
  region_at NAME_MAX (shm (crash_cleanup NAME_MAX SYSTEM_SIZE 5 only_R1)) 0
  = zero_region NAME_MAX
  /\ sd_initialized (shm (crash_cleanup NAME_MAX SYSTEM_SIZE 5 only_R1)) = false
  /\ sd_max_regions (shm (crash_cleanup NAME_MAX SYSTEM_SIZE 5 only_R1)) = 0
  /\ sd_num_regions (shm (crash_cleanup NAME_MAX SYSTEM_SIZE 5 only_R1)) = 0
  /\ sd_talp_region (shm (crash_cleanup NAME_MAX SYSTEM_SIZE 5 only_R1))
     = replicate 4 (zero_region NAME_MAX)
  /\ shmem_talp__initialized (crash_cleanup NAME_MAX SYSTEM_SIZE 5 only_R1)
     = false
  /\ shmem_talp__get_pidlist NAME_MAX 8
       (crash_cleanup NAME_MAX SYSTEM_SIZE 5 only_R1)
     = (DLB_SUCCESS, Some [])
  /\ crash_cleanup NAME_MAX SYSTEM_SIZE 9 tombstone = tombstone.
Proof.
  destruct (crash_cleanup_spec NAME_MAX SYSTEM_SIZE 5 only_R1)
    as (Hzero & _ & Hwipe & _).
  destruct Hwipe as (H1 & H2 & H3 & H4 & H5 & H6).
  { intros j Hj. by_slot j Hj 1. left. compute_eq. }
  destruct (crash_cleanup_spec NAME_MAX SYSTEM_SIZE 9 tombstone)
    as (_ & Hkeep & _).
  destruct Hkeep as (_ & _ & _ & _ & Hsame).
  { exists 1. by_evaluation. }
  split; [apply Hzero; [by_evaluation | compute_eq]|].
  split; [exact H1|]. split; [exact H2|]. split; [exact H3|].
  split; [apply H4; compute_eq|]. split; [exact H5|].
  split; [apply H6; compute_eq|].
  apply Hsame. intros j Hj. by_slot j Hj 2; by_evaluation.
Defined.

(** C6 as stated fails: after pid 5, the only owner, has finalized, no
    record has an owner, and the payload still says initialised, with
    capacity 4 and size 1; a process that stays attached sees it. *)
Lemma finalize_leaves_header :
  is_shmem_empty NAME_MAX
    (shm (snd (shmem_talp__finalize NAME_MAX 5 twice_R1))) = true
  /\ sd_initialized (shm (snd (shmem_talp__finalize NAME_MAX 5 twice_R1)))
     = true
  /\ sd_max_regions (shm (snd (shmem_talp__finalize NAME_MAX 5 twice_R1))) = 4
  /\ sd_num_regions (shm (snd (shmem_talp__finalize NAME_MAX 5 twice_R1))) = 1
  /\ shmem_talp__initialized (snd (shmem_talp__finalize NAME_MAX 5 twice_R1))
     = true
  /\ shmem_talp__get_num_regions
       (snd (shmem_talp__finalize NAME_MAX 5 twice_R1)) = Some 1
  /\ sd_initialized (shm (snd (shmem_talp__finalize NAME_MAX 5 only_R1)))
     = true
  /\ sd_max_regions (shm (snd (shmem_talp__finalize NAME_MAX 5 only_R1))) = 4
  /\ sd_num_regions (shm (snd (shmem_talp__finalize NAME_MAX 5 only_R1))) = 1.
Proof. repeat split; compute_eq. Qed.

Lemma finalize_clears_only_witness :
  fst (shmem_talp__finalize NAME_MAX 5 only_R1) = DLB_SUCCESS
  /\ sd_initialized (shm (snd (shmem_talp__finalize NAME_MAX 5 only_R1)))
     = sd_initialized (shm only_R1)
  /\ sd_num_regions (shm (snd (shmem_talp__finalize NAME_MAX 5 only_R1)))
     = sd_num_regions (shm only_R1)
  /\ is_shmem_empty NAME_MAX
       (shm (snd (shmem_talp__finalize NAME_MAX 5 only_R1))) = true
  /\ shmem_calls (snd (shmem_talp__finalize NAME_MAX 5 only_R1))
     = Shmem_finalize true :: shmem_calls only_R1.
Proof.
  destruct (finalize_clears_only NAME_MAX SYSTEM_SIZE 5 only_R1)
    as (H1 & H2 & _ & H4 & _ & H6 & H7 & _); [compute_eq|].
  split; [exact H1|]. split; [exact H2|]. split; [exact H4|].
  assert (is_shmem_empty NAME_MAX
            (shm (snd (shmem_talp__finalize NAME_MAX 5 only_R1))) = true)
    as Hempty.
  { apply H6. intros j Hj. by_slot j Hj 1. left. compute_eq. }
  split; [exact Hempty|]. rewrite <- Hempty. apply H7. compute_eq.
Defined.

(** The sorted listing of the specification: pids 30, 10 and 20 register
    "X" in this order and come out as 10, 20, 30, each with its id. *)
Example get_regionlist_three_X :
  shmem_talp__get_regionlist NAME_MAX 8 (str "X") three_X
  = (DLB_SUCCESS,
     Some [ {| rl_pid := 10; rl_region_id := 1; rl_mpi_time := 0;
               rl_useful_time := 0; rl_avg_cpus := 1065353216 |};
            {| rl_pid := 20; rl_region_id := 2; rl_mpi_time := 0;
               rl_useful_time := 0; rl_avg_cpus := 1065353216 |};
            {| rl_pid := 30; rl_region_id := 0; rl_mpi_time := 0;
               rl_useful_time := 0; rl_avg_cpus := 1065353216 |} ]).
Proof. compute_eq. Qed.

(** A buffer of two entries receives two. *)
Example get_regionlist_truncated :
  option_map (map rl_pid)
    (snd (shmem_talp__get_regionlist NAME_MAX 2 (str "X") three_X))
  = Some [10; 30].
Proof. compute_eq. Qed.

Lemma get_regionlist_sorted_witness :
  exists region_list,
    shmem_talp__get_regionlist NAME_MAX 8 (str "X") three_X
    = (DLB_SUCCESS, Some region_list)
    /\ Z.of_nat (length region_list) <= 8
    /\ map rl_pid region_list = [10; 20; 30]
    /\ Sorted Z.le (map rl_pid region_list).
Proof.
  destruct (get_regionlist_sorted NAME_MAX 8 (str "X") three_X)
    as (region_list & Hcall & Hlen & _ & _ & _ & Hsorted & _); [compute_eq|].
  exists region_list. split; [exact Hcall|]. split; [exact Hlen|].
  split.
  - rewrite get_regionlist_three_X in Hcall. by injection Hcall as <-.
  - apply Hsorted. intros j Hj. by_slot j Hj 3; by_evaluation.
Defined.

Lemma init_capacity_mismatch_witness :
  fst (shmem_talp__init NAME_MAX SYSTEM_SIZE shmem_attach (str "key") 1
         foreign) = DLB_ERR_INIT
  /\ shm (snd (shmem_talp__init NAME_MAX SYSTEM_SIZE shmem_attach (str "key")
                 1 foreign)) = shm foreign
  /\ subprocesses_attached
       (snd (shmem_talp__init NAME_MAX SYSTEM_SIZE shmem_attach (str "key") 1
               foreign)) = 0
  /\ shm_handler
       (snd (shmem_talp__init NAME_MAX SYSTEM_SIZE shmem_attach (str "key") 1
               foreign)) = false.
Proof.
  destruct (init_capacity_mismatch NAME_MAX SYSTEM_SIZE shmem_attach
              (str "key") 1 foreign)
    as (H1 & H2 & H3 & _ & H5); [compute_eq | by_evaluation |].
  destruct H5 as (H6 & H7 & _); [compute_eq|].
  split; [exact H1|]. split; [exact H2|].
  split; [rewrite H3, H6; reflexivity | exact H7].
Defined.

(** A process attached already that meets a table of another capacity:
    the counter is back at its value, the mapping stays. *)
Example init_mismatch_when_attached :
  let w := {| shm := first_init 8 (blank_segment 8);
              shm_handler := true; shdata := true; max_regions := 4;
              subprocesses_attached := 1; shmem_calls := [] |} in
  shmem_talp__init NAME_MAX SYSTEM_SIZE shmem_attach (str "key") 1 w
  = (DLB_ERR_INIT, w).
Proof. compute_eq. Qed.

(** The tombstone in slot 0 is not handed out again: the next new pair
    gets slot 2, and slot 0 stays vacated. *)
Example tombstone_not_reused :
  fst (shmem_talp__register NAME_MAX 7 0 (str "R3") tombstone)
  = (DLB_SUCCESS, Some 2)
  /\ tr_pid (region_at NAME_MAX (shm (register 7 "R3" tombstone)) 0) = NOBODY
  /\ sd_num_regions (shm (register 7 "R3" tombstone)) = 3.
Proof. repeat split; compute_eq. Qed.



(** The pair of pid 0 and the empty name is answered with the id of the
    tombstone: a cleared record has owner 0 and an empty name. *)
Example tombstone_answers_nobody :
  shmem_talp__register NAME_MAX NOBODY 0 (str "") tombstone
  = (DLB_NOUPDT, Some 0, tombstone).
Proof. compute_eq. Qed.


Lemma get_num_regions_unguarded_witness :
  shmem_talp__get_num_regions only_R1 = Some 1
  /\ shmem_talp__get_num_regions (detached (blank_segment 4)) = None
  /\ shmem_talp__initialized (detached (blank_segment 4)) = false
  /\ fst (shmem_talp__get_times NAME_MAX 0 (detached (blank_segment 4)))
     = DLB_ERR_NOSHMEM.
Proof.
  destruct (get_num_regions_unguarded NAME_MAX only_R1) as (H1 & _).
  destruct (get_num_regions_unguarded NAME_MAX (detached (blank_segment 4)))
    as (_ & H2 & _ & H4).
  destruct H2 as [H2 H3]; [reflexivity|].
  destruct (H4 eq_refl 0 0 0 [] 0) as (H5 & _).
  split; [apply H1; compute_eq|]. split; [exact H2|]. split; [exact H3|].
  exact H5.
Defined.

(** ** Further instances *)

(** Pids 5 and 6 have one record each. *)
Definition two_owners : world := register 6 "R2" (register 5 "R1" attached).

Lemma get_pidlist_spec_witness :
  exists pidlist,
    shmem_talp__get_pidlist NAME_MAX 8 three_X = (DLB_SUCCESS, Some pidlist)
    /\ NoDup pidlist
    /\ Z.of_nat (length pidlist) <= 8
    /\ 30 ∈ pidlist.
Proof.
  destruct (get_pidlist_spec NAME_MAX 8 three_X) as [H _].
  destruct H as (pidlist & Hcall & Hnd & Hlen & _ & Hall); [compute_eq|].
  exists pidlist. split; [exact Hcall|]. split; [exact Hnd|].
  split; [exact Hlen|].
  assert (pidlist = [30; 10; 20]) as Hl.
  { assert (shmem_talp__get_pidlist NAME_MAX 8 three_X
            = (DLB_SUCCESS, Some [30; 10; 20])) as E by compute_eq.
    rewrite E in Hcall. by injection Hcall as <-. }
  apply (Hall ltac:(rewrite Hl; by_evaluation) 0);
    [by_evaluation | by_evaluation].
Defined.

(** The pids come out in the order of their first record, each once. *)
Example get_pidlist_order :
  shmem_talp__get_pidlist NAME_MAX 8
    (register 30 "Y" (register 10 "Y" three_X))
  = (DLB_SUCCESS, Some [30; 10; 20])
  /\ shmem_talp__get_pidlist NAME_MAX 2 three_X = (DLB_SUCCESS, Some [30; 10])
  /\ shmem_talp__get_pidlist NAME_MAX 8 tombstone = (DLB_SUCCESS, Some [6]).
Proof. repeat split; compute_eq. Qed.

Lemma get_region_agrees_register_witness :
  shmem_talp__get_region NAME_MAX 10 (str "X") three_X
  = (DLB_SUCCESS,
     Some {| rl_pid := 10; rl_region_id := 1; rl_mpi_time := 0;
             rl_useful_time := 0; rl_avg_cpus := 1065353216 |})
  /\ shmem_talp__get_region NAME_MAX 10 (str "Y") three_X
     = (DLB_ERR_NOPROC, None).
Proof.
  destruct (get_region_agrees_register NAME_MAX 10 0 (str "X") three_X)
    as [(i & _ & Hget & Hreg)|(_ & _ & Hreg)];
    [compute_eq | by_evaluation | |].
  - assert (i = 1) as ->.
    { assert (fst (shmem_talp__register NAME_MAX 10 0 (str "X") three_X)
              = (DLB_NOUPDT, Some 1)) as E by compute_eq.
      rewrite E in Hreg. by injection Hreg as <-. }
    split; [exact Hget|].
    destruct (get_region_agrees_register NAME_MAX 10 0 (str "Y") three_X)
      as [(j & _ & _ & Hreg')|(_ & Hnone & _)];
      [compute_eq | by_evaluation | | exact Hnone].
    exfalso. revert Hreg'. by_evaluation.
  - exfalso. apply Hreg. compute_eq.
Defined.

Lemma register_then_get_region_witness :
  shmem_talp__get_region NAME_MAX 5 (str "R1") only_R1
  = (DLB_SUCCESS,
     Some {| rl_pid := 5; rl_region_id := 0; rl_mpi_time := 0;
             rl_useful_time := 0; rl_avg_cpus := 1065353216 |})
  /\ shmem_talp__get_times NAME_MAX 0 only_R1 = (DLB_SUCCESS, Some (0, 0)).
Proof.
  destruct (register_then_get_region NAME_MAX SYSTEM_SIZE 5 1065353216
              (str "R1") attached 0 only_R1) as [H1 H2];
    [compute_eq | by_evaluation | compute_eq |].
  split; [exact H1 | apply H2; by_evaluation].
Defined.

Lemma counter_call_frame_witness :
  sd_num_regions
    (shm (snd (run_counter_call NAME_MAX (Set_times 1 100 200) three_X)))
  = sd_num_regions (shm three_X)
  /\ region_at NAME_MAX
       (shm (snd (run_counter_call NAME_MAX (Set_times 1 100 200) three_X))) 0
     = region_at NAME_MAX (shm three_X) 0
  /\ region_at NAME_MAX
       (shm (snd (run_counter_call NAME_MAX (Set_times 1 100 200) three_X))) 1
     = store_times 100 200 (region_at NAME_MAX (shm three_X) 1).
Proof.
  destruct (counter_call_frame NAME_MAX (Set_times 1 100 200) three_X)
    as (_ & _ & _ & _ & _ & _ & _ & Hn & _ & Hother & _ & _ & Hslot);
    [compute_eq|].
  split; [exact Hn|]. split; [apply Hother; by_evaluation | exact Hslot].
Defined.

Lemma stored_values_are_reported_witness :
  exists w1 w2,
    shmem_talp__set_times NAME_MAX 1 100 200 three_X = (DLB_SUCCESS, w1)
    /\ shmem_talp__set_avg_cpus NAME_MAX 1 7 w1 = (DLB_SUCCESS, w2)
    /\ shmem_talp__get_region NAME_MAX 10 (str "X") w2
       = (DLB_SUCCESS,
          Some {| rl_pid := 10; rl_region_id := 1; rl_mpi_time := 100;
                  rl_useful_time := 200; rl_avg_cpus := 7 |})
    /\ shmem_talp__get_times NAME_MAX 1 w2 = (DLB_SUCCESS, Some (100, 200)).
Proof.
  apply (stored_values_are_reported NAME_MAX SYSTEM_SIZE 10 (str "X") 1 100 200 7
           three_X).
  - split; [compute_eq|]. split; [by_evaluation|]. split; [compute_eq|].
    intros j Hj. assert (j = 0) as -> by lia. compute_eq.
  - by_evaluation.
  - by_evaluation.
Defined.

Lemma is_shmem_empty_spec_witness :
  is_shmem_empty NAME_MAX
    (shm (snd (shmem_talp__finalize NAME_MAX 5 twice_R1))) = true
  /\ is_shmem_empty NAME_MAX (shm tombstone) = false.
Proof.
  destruct (is_shmem_empty_spec NAME_MAX
              (shm (snd (shmem_talp__finalize NAME_MAX 5 twice_R1))))
    as (_ & _ & H).
  split; [|compute_eq].
  apply H.
  - intros j Hj. by_slot j Hj 1. by_evaluation.
  - intros j Hj. by_slot j Hj 1. left. compute_eq.
Defined.

Lemma attach_detach_symmetry_witness :
  shm_handler
    (Nat.iter 3
       (fun w => snd (shmem_talp_ext__init NAME_MAX SYSTEM_SIZE shmem_attach
                        (str "key") 1 w))
       (detached (blank_segment 4))) = true
  /\ subprocesses_attached
       (Nat.iter 2 (fun w => snd (shmem_talp_ext__finalize NAME_MAX w))
          (Nat.iter 3
             (fun w => snd (shmem_talp_ext__init NAME_MAX SYSTEM_SIZE
                              shmem_attach (str "key") 1 w))
             (detached (blank_segment 4)))) = 1
  /\ shm_handler
       (Nat.iter 3 (fun w => snd (shmem_talp_ext__finalize NAME_MAX w))
          (Nat.iter 3
             (fun w => snd (shmem_talp_ext__init NAME_MAX SYSTEM_SIZE
                              shmem_attach (str "key") 1 w))
             (detached (blank_segment 4)))) = false.
Proof.
  destruct (attach_detach_symmetry NAME_MAX SYSTEM_SIZE shmem_attach
              (str "key") 1 2 2 (detached (blank_segment 4)))
    as (H1 & _ & _ & _ & H5 & _ & _ & H8 & _); [reflexivity | lia |].
  split; [exact H1|]. split; [exact H5 | exact H8].
Defined.

Lemma finalize_detaches_last_witness :
  shm_handler (snd (shmem_talp__finalize NAME_MAX 5 only_R1)) = false
  /\ shmem_talp__finalize NAME_MAX 5
       (snd (shmem_talp__finalize NAME_MAX 5 only_R1))
     = (DLB_ERR_NOSHMEM, snd (shmem_talp__finalize NAME_MAX 5 only_R1))
  /\ shm_handler (snd (shmem_talp__finalize NAME_MAX 5 twice_R1)) = true.
Proof.
  destruct (finalize_detaches_last NAME_MAX 5 only_R1)
    as (_ & _ & Hlast & _); [compute_eq|].
  destruct Hlast as (H1 & _ & _ & H4); [compute_eq|].
  destruct (finalize_detaches_last NAME_MAX 5 twice_R1)
    as (_ & _ & _ & Hstay); [compute_eq|].
  destruct Hstay as (H5 & _); [by_evaluation|].
  split; [exact H1|]. split; [apply (H4 5) | exact H5].
Defined.

Lemma tombstone_unique : unique_owned NAME_MAX (shm tombstone).
Proof.
  intros i j Hi Hj Hp Hkey.
  assert (sd_num_regions (shm tombstone) = 2) as Hn by compute_eq.
  rewrite Hn in Hi, Hj.
  assert (i = 0 \/ i = 1) as [-> | ->] by lia;
    assert (j = 0 \/ j = 1) as [-> | ->] by lia;
    try reflexivity; exfalso; revert Hp Hkey; by_evaluation.
Qed.

Lemma unique_owned_invariant_witness :
  unique_owned NAME_MAX
    (shm (run_op NAME_MAX SYSTEM_SIZE (Op_register 6 0 (str "R2")) tombstone))
  /\ unique_owned NAME_MAX
       (shm (run_ops NAME_MAX SYSTEM_SIZE
               [Op_register 7 0 (str "R2"); Op_register 7 0 (str "R2");
                Op_finalize 6]
               tombstone)).
Proof.
  destruct (unique_owned_invariant NAME_MAX SYSTEM_SIZE
              (Op_register 6 0 (str "R2"))
              [Op_register 7 0 (str "R2"); Op_register 7 0 (str "R2");
               Op_finalize 6]
              tombstone) as (H1 & H2 & _);
    [by_evaluation | compute_eq | apply tombstone_unique |].
  split; [exact H1 | exact H2].
Defined.

Lemma init_outcomes_witness :
  sd_initialized (shm (init (detached (blank_segment 4)))) = true
  /\ sd_max_regions (shm (init (detached (blank_segment 4))))
     = max_regions (init (detached (blank_segment 4)))
  /\ sd_num_regions (shm (init (detached (blank_segment 4)))) = 0
  /\ init attached
     = open_shmem NAME_MAX SYSTEM_SIZE shmem_attach (str "key") 1 attached.
Proof.
  destruct (init_outcomes NAME_MAX SYSTEM_SIZE shmem_attach (str "key") 1
              (detached (blank_segment 4))) as (_ & _ & H).
  destruct H as (_ & _ & _ & H1 & H2 & _ & _ & H3); [compute_eq|].
  destruct (init_outcomes NAME_MAX SYSTEM_SIZE shmem_attach (str "key") 1
              attached) as (_ & _ & H').
  destruct H' as (_ & _ & _ & _ & _ & _ & H4 & _); [compute_eq|].
  split; [exact H1|]. split; [exact H2|].
  split; [apply H3; compute_eq | apply H4; compute_eq].
Defined.

Lemma cleared_pair_is_new_again_witness :
  shmem_talp__get_times NAME_MAX 0 tombstone = (DLB_ERR_NOENT, None)
  /\ shmem_talp__get_region NAME_MAX 5 (str "R1") tombstone
     = (DLB_ERR_NOPROC, None)
  /\ fst (shmem_talp__register NAME_MAX 5 0 (str "R1") tombstone)
     = (DLB_SUCCESS, Some 2).
Proof.
  destruct (cleared_pair_is_new_again NAME_MAX SYSTEM_SIZE 5 0 (str "R1")
              1 1 two_owners tombstone) as (H1 & H2 & H3 & _).
  - by_evaluation.
  - by_evaluation.
  - compute_eq.
  - compute_eq.
  - compute_eq.
  - destruct (H1 0) as (H4 & _); [by_evaluation | compute_eq |].
    split; [exact H4|]. split; [exact H2 | exact H3].
Defined.

Lemma regionlist_entries_usable_witness :
  shmem_talp__get_times NAME_MAX 1 three_X = (DLB_SUCCESS, Some (0, 0))
  /\ shmem_talp__get_region NAME_MAX 10 (str "X") three_X
     = (DLB_SUCCESS,
        Some {| rl_pid := 10; rl_region_id := 1; rl_mpi_time := 0;
                rl_useful_time := 0; rl_avg_cpus := 1065353216 |}).
Proof.
  destruct (regionlist_entries_usable NAME_MAX 8 (str "X") three_X
              [ {| rl_pid := 10; rl_region_id := 1; rl_mpi_time := 0;
                   rl_useful_time := 0; rl_avg_cpus := 1065353216 |};
                {| rl_pid := 20; rl_region_id := 2; rl_mpi_time := 0;
                   rl_useful_time := 0; rl_avg_cpus := 1065353216 |};
                {| rl_pid := 30; rl_region_id := 0; rl_mpi_time := 0;
                   rl_useful_time := 0; rl_avg_cpus := 1065353216 |} ]
              {| rl_pid := 10; rl_region_id := 1; rl_mpi_time := 0;
                 rl_useful_time := 0; rl_avg_cpus := 1065353216 |})
    as (H1 & _ & _ & H4).
  - compute_eq.
  - by_evaluation.
  - compute_eq.
  - apply list_elem_of_here.
  - split; [exact H1|]. apply H4.
    intros i j Hi Hj Hp Hkey.
    assert (sd_num_regions (shm three_X) = 3) as Hn by compute_eq.
    rewrite Hn in Hi, Hj.
    assert (i = 0 \/ i = 1 \/ i = 2) as [-> | [-> | ->]] by lia;
      assert (j = 0 \/ j = 1 \/ j = 2) as [-> | [-> | ->]] by lia;
      try reflexivity; exfalso; revert Hkey; by_evaluation.
Defined.

Lemma print_info_attach_state_witness :
  snd (shmem_talp__print_info NAME_MAX SYSTEM_SIZE shmem_attach (str "key") 1
         three_X) = three_X
  /\ fst (shmem_talp__print_info NAME_MAX SYSTEM_SIZE shmem_attach
            (str "key") 1 three_X)
     = print_info_text NAME_MAX (shm three_X)
  /\ shm_handler
       (snd (shmem_talp__print_info NAME_MAX SYSTEM_SIZE shmem_attach
               (str "key") 1 (detached (shm three_X)))) = false
  /\ max_regions
       (snd (shmem_talp__print_info NAME_MAX SYSTEM_SIZE shmem_attach
               (str "key") 1 (detached (shm three_X)))) = 4
  /\ fst (shmem_talp__print_info NAME_MAX SYSTEM_SIZE shmem_attach
            (str "key") 1 (detached (shm three_X)))
     = print_info_text NAME_MAX (shm three_X).
Proof.
  destruct (print_info_attach_state NAME_MAX SYSTEM_SIZE shmem_attach
              (str "key") 1 three_X) as [Ha _].
  destruct Ha as [H1 H2]; [compute_eq|].
  destruct (print_info_attach_state NAME_MAX SYSTEM_SIZE shmem_attach
              (str "key") 1 (detached (shm three_X))) as [_ Hd].
  destruct Hd as (H3 & _ & _ & H4 & _ & _ & H5); [reflexivity|].
  split; [exact H1|]. split; [apply H2; by_evaluation|].
  split; [exact H3|]. split; [exact H4|]. apply H5. by_evaluation.
Defined.

(** The capacity is an [int] product: with four CPUs and a multiplier of
    [2 ^ 30] it wraps to zero, the segment is sized for the four CPUs,
    and the attach succeeds with a table that takes no record. *)
Example capacity_wraps :
  shmem_talp__init NAME_MAX SYSTEM_SIZE shmem_attach (str "key") (2 ^ 30)
    (detached (blank_segment 4))
  = (DLB_SUCCESS,
     {| shm := first_init 0 (blank_segment 4);
        shm_handler := true;
        shdata := true;
        max_regions := 0;
        subprocesses_attached := 1;
        shmem_calls := [Shmem_init (str "key") 4] |})
  /\ fst (shmem_talp__register NAME_MAX 5 0 (str "R1")
            (snd (shmem_talp__init NAME_MAX SYSTEM_SIZE shmem_attach
                    (str "key") (2 ^ 30) (detached (blank_segment 4)))))
     = (DLB_ERR_NOMEM, None).
Proof. split; compute_eq. Qed.

(** The dump of three regions, one of them with counters set. *)
Example print_info_three_X :
  fst (shmem_talp__print_info NAME_MAX SYSTEM_SIZE shmem_attach (str "key") 1
         (snd (shmem_talp__set_times NAME_MAX 1 123456789012 (-42) three_X)))
  = Some (str "  | PID | Name |     MPI time | Useful time |",
          [str "  |  30 |    X |            0 |           0 |";
           str "  |  10 |    X | 123456789012 |         -42 |";
           str "  |  20 |    X |            0 |           0 |"])
  /\ fst (shmem_talp__print_info NAME_MAX SYSTEM_SIZE shmem_attach
            (str "key") 1 attached) = None.
Proof. split; compute_eq. Qed.

Lemma print_info_text_spec_witness :
  exists header lines,
    print_info_text NAME_MAX (shm tombstone) = Some (header, lines)
    /\ length lines = 1%nat
    /\ Forall (fun line => length line = length header) lines.
Proof.
  destruct (print_info_text NAME_MAX (shm tombstone)) as [[header lines]|]
    eqn:E; [|exfalso; revert E; by_evaluation].
  destruct (print_info_text_spec NAME_MAX (shm tombstone)) as [_ H].
  destruct (H header lines E) as (_ & _ & Hall & _).
  exists header, lines. split; [reflexivity|]. split.
  - revert E. vm_compute. by intros [= <- <-].
  - apply Hall. intros j Hj. by_slot j Hj 2; by_evaluation.
Defined.

(** A name of 130 characters and the name of its first 127. *)
Definition long_name : list ascii := replicate 130 "a"%char.

Definition cut_name : list ascii := replicate 127 "a"%char.

Lemma register_truncates_name_witness :
  strlen
    (tr_name
       (region_at NAME_MAX
          (shm (snd (shmem_talp__register NAME_MAX 5 0 long_name attached))) 0))
  = 127%nat
  /\ shmem_talp__register NAME_MAX 5 0 cut_name
       (snd (shmem_talp__register NAME_MAX 5 0 long_name attached))
     = (DLB_NOUPDT, Some 0,
        snd (shmem_talp__register NAME_MAX 5 0 long_name attached)).
Proof.
  destruct (register_truncates_name NAME_MAX SYSTEM_SIZE 5 0 long_name
              attached 0
              (snd (shmem_talp__register NAME_MAX 5 0 long_name attached)))
    as (_ & H2 & H3); [compute_eq | by_evaluation | compute_eq |].
  split; [unfold strlen; rewrite H2; compute_eq|].
  apply (H3 cut_name 0). compute_eq.
Defined.
